(** * The [useTodos] hook of my-todo: state engine and derived views

    A shallow embedding of [src/hooks/useTodos.ts] (the state
    synchronisation engine behind the todo list) and of the types of
    [src/types/Todo.ts], followed by the properties of the engine.
    The handlers and display guards of the components that use the
    hook ([App], [TodoItem], [TodoInput], [TodoFilters], [TodoList],
    [TodoStats]) come after the hook, with their own properties.

    - A JavaScript string is the list of its UTF-16 code units.
    - [Date.now()] and [new Date()] read the system clock: the readings
      are arguments of [addTodo].
    - [useState] cells are the fields of [Hook.state]; a call of a
      setter with an updater function is [setTodos].
    - [useOptimistic] is React's: the optimistic values React still
      holds are a list, folded with the reducer of the source; the list
      is empty whenever no optimistic update is in flight. [Live] puts
      that list beside the cells, with [addOptimisticTodo] adding to it.
    - [useTransition] only lowers the priority of the render that
      follows [setFilter]; [isPending] and render scheduling are not
      part of the model, [updateFilter] is the committed update. *)

From Stdlib Require Import ZArith NArith Ascii String Lia.
From stdpp Require Import base decidable option numbers list gmap.

Local Open Scope Z_scope.

(** ** JavaScript strings *)

Abbreviation jsstring := (list N).

(** [js "abc"]: the code units of an ASCII literal. *)
Definition js (s : string) : jsstring :=
  (λ a, N_of_ascii a) <$> list_ascii_of_string s.

(** ECMAScript [WhiteSpace] and [LineTerminator] code points, the ones
    [String.prototype.trim] strips (all of them in the basic plane). *)
Definition isWhiteSpace (c : N) : bool :=
  ((c =? 0x0009) || (c =? 0x000A) || (c =? 0x000B) || (c =? 0x000C)
   || (c =? 0x000D) || (c =? 0x0020) || (c =? 0x00A0) || (c =? 0x1680)
   || ((0x2000 <=? c) && (c <=? 0x200A))
   || (c =? 0x2028) || (c =? 0x2029) || (c =? 0x202F) || (c =? 0x205F)
   || (c =? 0x3000) || (c =? 0xFEFF))%N.

Fixpoint trimStart (s : jsstring) : jsstring :=
  match s with
  | [] => []
  | c :: s' => if isWhiteSpace c then trimStart s' else s
  end.

Definition trimEnd (s : jsstring) : jsstring :=
  reverse (trimStart (reverse s)).

Definition trim (s : jsstring) : jsstring := trimEnd (trimStart s).

(** ** Types ([src/types/Todo.ts]) *)

Module Todo.
(** [interface Todo]: [id] is a JS number holding an integer,
    [createdAt] the time value of the [Date]. *)
Record t := mk {
  id : Z;
  text : jsstring;
  completed : bool;
  createdAt : Z
}.

(** [{ ...todo, completed: c }] *)
Definition with_completed (c : bool) (todo : t) : t :=
  mk (id todo) (text todo) c (createdAt todo).

(** [{ ...todo, text: x }] *)
Definition with_text (x : jsstring) (todo : t) : t :=
  mk (id todo) x (completed todo) (createdAt todo).
End Todo.

#[global] Instance Todo_eq_dec : EqDecision Todo.t.
Proof. solve_decision. Defined.

Inductive FilterType := all | active | completed.

#[global] Instance FilterType_eq_dec : EqDecision FilterType.
Proof. solve_decision. Defined.

Module Stats.
Record t := mk { total : nat; completed : nat; active : nat }.
End Stats.

(** ** The hook *)

Module Hook.
(** The two [useState] cells. *)
Record state := mk { todos : list Todo.t; filter : FilterType }.
End Hook.

(** [useState<Todo[]>([])], [useState<FilterType>('all')] *)
Definition initial : Hook.state := Hook.mk [] all.

Definition setTodos (f : list Todo.t → list Todo.t) (s : Hook.state)
  : Hook.state :=
  Hook.mk (f (Hook.todos s)) (Hook.filter s).

Definition setFilter (newFilter : FilterType) (s : Hook.state)
  : Hook.state :=
  Hook.mk (Hook.todos s) newFilter.

(** The reducer handed to [useOptimistic]. *)
Definition optimisticReducer (state : list Todo.t) (optimisticTodo : Todo.t)
  : list Todo.t :=
  optimisticTodo :: state.

(** [optimisticTodos]: the reducer applied to [todos] once per optimistic
    value React holds; [todos] itself when there is none. *)
Definition useOptimistic (todos pending : list Todo.t) : list Todo.t :=
  foldl optimisticReducer todos pending.

(** [addTodo] on the two [useState] cells: [now] is the reading of
    [Date.now()], [date] the one of [new Date()], both taken under the
    guard. The call [addOptimisticTodo(newTodo)] acts on React's queue
    of optimistic values, not on the cells: the whole handler, with
    that call, is [Live.addTodo] below, and [Live.addTodo_cells] shows
    that this function is its effect on the cells. *)
Definition addTodo (now date : Z) (text : jsstring) (s : Hook.state)
  : Hook.state :=
  if decide (trim text ≠ []) then
    let newTodo := Todo.mk now (trim text) false date in
    setTodos (λ prev, newTodo :: prev) s
  else s.

Definition toggleTodo (id : Z) (s : Hook.state) : Hook.state :=
  setTodos (λ prev,
    (λ todo, if decide (Todo.id todo = id)
             then Todo.with_completed (negb (Todo.completed todo)) todo
             else todo) <$> prev) s.

Definition deleteTodo (id : Z) (s : Hook.state) : Hook.state :=
  setTodos (λ prev, filter (λ todo, Todo.id todo ≠ id) prev) s.

Definition editTodo (id : Z) (newText : jsstring) (s : Hook.state)
  : Hook.state :=
  if decide (trim newText ≠ []) then
    setTodos (λ prev,
      (λ todo, if decide (Todo.id todo = id)
               then Todo.with_text (trim newText) todo
               else todo) <$> prev) s
  else s.

Definition clearCompleted (s : Hook.state) : Hook.state :=
  setTodos (λ prev, filter (λ todo, negb (Todo.completed todo)) prev) s.

(** [updateFilter]: the transition commits [setFilter(newFilter)]. *)
Definition updateFilter (newFilter : FilterType) (s : Hook.state)
  : Hook.state :=
  setFilter newFilter s.

Definition filteredTodos (optimisticTodos : list Todo.t)
    (filter0 : FilterType) : list Todo.t :=
  filter (λ todo, Is_true
            match filter0 with
            | active => negb (Todo.completed todo)
            | completed => Todo.completed todo
            | _ => true
            end) optimisticTodos.

Definition stats (optimisticTodos : list Todo.t) : Stats.t :=
  Stats.mk
    (length optimisticTodos)
    (length (filter (λ todo, Is_true (Todo.completed todo)) optimisticTodos))
    (length (filter (λ todo, Is_true (negb (Todo.completed todo)))
               optimisticTodos)).

(** What the hook returns for the state [s] while React holds the
    optimistic values [pending]. *)
Definition getVisibleTasks (s : Hook.state) (pending : list Todo.t)
  : list Todo.t :=
  filteredTodos (useOptimistic (Hook.todos s) pending) (Hook.filter s).

Definition getStats (s : Hook.state) (pending : list Todo.t) : Stats.t :=
  stats (useOptimistic (Hook.todos s) pending).

(** ** The hook with React's queue of optimistic values

    [useOptimistic] keeps the values passed to [addOptimisticTodo] in a
    queue and returns the reducer folded over it, oldest value first,
    starting from the current [todos]. React drops the queued values
    when it renders the lane on which they are reverted ([revert]);
    between the call and that render the hook is rendered with the
    value in the queue. *)

Module Live.
Record state := mk { cells : Hook.state; inFlight : list Todo.t }.

(** The hook when it mounts. *)
Definition init : state := mk initial [].

(** [addOptimisticTodo(optimisticTodo)] *)
Definition addOptimisticTodo (optimisticTodo : Todo.t) (r : state) : state :=
  mk (cells r) (inFlight r ++ [optimisticTodo]).

(** A setter of a [useState] cell leaves the queue alone. *)
Definition onCells (f : Hook.state → Hook.state) (r : state) : state :=
  mk (f (cells r)) (inFlight r).

(** [addTodo], lines 25-40: under the guard, [addOptimisticTodo(newTodo)]
    and then [setTodos(prev => [newTodo, ...prev])]. *)
Definition addTodo (now date : Z) (text : jsstring) (r : state) : state :=
  if decide (trim text ≠ []) then
    let newTodo := Todo.mk now (trim text) false date in
    onCells (setTodos (λ prev, newTodo :: prev))
            (addOptimisticTodo newTodo r)
  else r.

(** React renders the revert lane: the queue is dropped. *)
Definition revert (r : state) : state := mk (cells r) [].

(** The [todos] and [stats] the hook returns. *)
Definition todos (r : state) : list Todo.t :=
  getVisibleTasks (cells r) (inFlight r).

Definition stats (r : state) : Stats.t := getStats (cells r) (inFlight r).
End Live.

(** ** Runs of the engine *)

Inductive call :=
  | AddTask (now date : Z) (text : jsstring)
  | ToggleTask (id : Z)
  | EditTask (id : Z) (newText : jsstring)
  | DeleteTask (id : Z)
  | ClearCompleted
  | SetFilter (newFilter : FilterType).

Definition step (s : Hook.state) (c : call) : Hook.state :=
  match c with
  | AddTask now date text => addTodo now date text s
  | ToggleTask id => toggleTodo id s
  | EditTask id newText => editTodo id newText s
  | DeleteTask id => deleteTodo id s
  | ClearCompleted => clearCompleted s
  | SetFilter newFilter => updateFilter newFilter s
  end.

Definition run (cs : list call) (s : Hook.state) : Hook.state :=
  foldl step s cs.

Definition reachable (s : Hook.state) : Prop :=
  ∃ cs, s = run cs initial.

(** The [Date.now()] readings of a run: [addTodo] reads the clock only
    under its guard, so a call with a blank text takes no reading. *)
Fixpoint clock_readings (cs : list call) : list Z :=
  match cs with
  | [] => []
  | AddTask now _ text :: cs' =>
      if decide (trim text ≠ []) then now :: clock_readings cs'
      else clock_readings cs'
  | _ :: cs' => clock_readings cs'
  end.

Definition ids (l : list Todo.t) : list Z := Todo.id <$> l.

(** ** Objects and references

    A [Todo] is a JavaScript object and an array holds references to
    objects. [store] maps the references in use to the objects they
    point to; a spread expression [{ ...todo, completed: c }] makes a new
    object, at a reference not yet in use, and leaves [todo] alone. *)

Abbreviation loc := positive.
Abbreviation store := (gmap positive Todo.t).

Definition alloc (σ : store) (todo : Todo.t) : loc * store :=
  let r := fresh (dom σ) in (r, <[r := todo]> σ).

(** The array of references [refs] represents the collection [l]. *)
Definition represents (σ : store) (refs : list loc) (l : list Todo.t) : Prop :=
  (λ r, σ !! r) <$> refs = Some <$> l.

(** [prev.map(todo => todo.id === id ? { ...todo, completed:
    !todo.completed } : todo)] on references: the callback returns its
    argument, or the reference of a new object. Every reference held by
    an array points to an object, so the last branch is never taken on
    an array that [represents] a collection. *)
Fixpoint toggleTodo_refs (id : Z) (σ : store) (prev : list loc)
  : list loc * store :=
  match prev with
  | [] => ([], σ)
  | r :: prev' =>
      match σ !! r with
      | Some todo =>
          if decide (Todo.id todo = id) then
            let a := alloc σ
                       (Todo.with_completed (negb (Todo.completed todo)) todo) in
            let rest := toggleTodo_refs id a.2 prev' in
            (a.1 :: rest.1, rest.2)
          else
            let rest := toggleTodo_refs id σ prev' in
            (r :: rest.1, rest.2)
      | None =>
          let rest := toggleTodo_refs id σ prev' in
          (r :: rest.1, rest.2)
      end
  end.

(** ** Components

    The handlers of the components that call the hook, as functions of
    the component's own [useState] cells and of the hook state; a
    callback received as a prop is an argument. What a component shows
    under a JSX guard [cond && <...>] is the boolean [cond]. *)

(** *** [TodoItem] ([src/components/TodoItem.tsx]) *)

Module TodoItem.
Record state := mk { isEditing : bool; editText : jsstring }.

(** [useState(false)] and [useState(todo.text)] when the item mounts. *)
Definition mount (todo : Todo.t) : state := mk false (Todo.text todo).

Definition setIsEditing (b : bool) (st : state) : state :=
  mk b (editText st).

Definition setEditText (x : jsstring) (st : state) : state :=
  mk (isEditing st) x.

Definition handleSave (onEdit : Z → jsstring → Hook.state → Hook.state)
    (todo : Todo.t) (st : state) (s : Hook.state) : state * Hook.state :=
  if decide (trim (editText st) ≠ []) then
    (setIsEditing false st, onEdit (Todo.id todo) (editText st) s)
  else
    (setIsEditing false (setEditText (Todo.text todo) st), s).

Definition handleCancel (todo : Todo.t) (st : state) : state :=
  setIsEditing false (setEditText (Todo.text todo) st).

Definition handleKeyDown (onEdit : Z → jsstring → Hook.state → Hook.state)
    (todo : Todo.t) (key : jsstring) (st : state) (s : Hook.state)
  : state * Hook.state :=
  if decide (key = js "Enter") then handleSave onEdit todo st s
  else if decide (key = js "Escape") then (handleCancel todo st, s)
  else (st, s).
End TodoItem.

(** *** [TodoForm] ([src/components/TodoInput.tsx]) *)

Module TodoForm.
(** [handleSubmit]: the component's state is [inputValue]. *)
Definition handleSubmit (onAddTodo : jsstring → Hook.state → Hook.state)
    (inputValue : jsstring) (s : Hook.state) : jsstring * Hook.state :=
  if decide (trim inputValue ≠ []) then ([], onAddTodo inputValue s)
  else (inputValue, s).

Definition handleKeyDown (onAddTodo : jsstring → Hook.state → Hook.state)
    (key : jsstring) (inputValue : jsstring) (s : Hook.state)
  : jsstring * Hook.state :=
  if decide (key = js "Enter") then handleSubmit onAddTodo inputValue s
  else (inputValue, s).

(** [{inputValue.trim() && <button type="submit">...}] *)
Definition showsAddButton (inputValue : jsstring) : bool :=
  bool_decide (trim inputValue ≠ []).
End TodoForm.

(** *** [TodoFilters] ([src/components/TodoFilters.tsx]) *)

Module TodoFilters.
Record button := mk { key : FilterType; label : jsstring; count : nat }.

Definition filters (stats : Stats.t) : list button :=
  [ mk all (js "All") (Stats.total stats);
    mk active (js "Active") (Stats.active stats);
    mk completed (js "Completed") (Stats.completed stats) ].

(** [{filter.count > 0 && <span>{filter.count}</span>}] *)
Definition showsCount (b : button) : bool := bool_decide (0 < count b)%nat.

(** [{stats.completed > 0 && <button onClick={onClearCompleted}>...}] *)
Definition showsClear (stats : Stats.t) : bool :=
  bool_decide (0 < Stats.completed stats)%nat.
End TodoFilters.

(** *** [TodoList] ([src/components/TodoList.tsx]) *)

Module TodoList.
(** [if (todos.length === 0) return <empty state>] *)
Definition emptyState (todos : list Todo.t) : bool :=
  bool_decide (length todos = 0%nat).
End TodoList.

(** *** [TodoStats] ([src/components/TodoStats.tsx]) *)

Module TodoStats.
(** The motivational line: "All tasks completed! Great job!", or
    "[n] task[plural] done! Keep going!". *)
Inductive message :=
  | AllCompleted
  | SomeDone (n : nat) (plural : jsstring).

(** [None] when the component returns [null] ([stats.total === 0]) or
    when the guard [stats.completed > 0] fails. *)
Definition motivation (stats : Stats.t) : option message :=
  if decide (Stats.total stats = 0%nat) then None
  else if decide (0 < Stats.completed stats)%nat then
    Some (if decide (Stats.completed stats = Stats.total stats)
          then AllCompleted
          else SomeDone (Stats.completed stats)
                 (if decide (Stats.completed stats = 1%nat)
                  then js "" else js "s"))
  else None.
End TodoStats.

(** *** [App] ([src/App.tsx]) *)

Module App.
(** [{stats.total > 0 && <TodoStats />}], and the same guard before
    [<TodoFilters />]. *)
Definition showsStats (stats : Stats.t) : bool :=
  bool_decide (0 < Stats.total stats)%nat.
End App.

(** ** Lists: what [Array.prototype.filter] and [map] guarantee *)

Section list_facts.
Context {A : Type} (P : A → Prop) `{!∀ x, Decision (P x)}.

Lemma Forall_filter_keeps (l : list A) : Forall P (filter P l).
Proof.
  apply Forall_forall. intros x Hx.
  by apply list_elem_of_filter in Hx as [? _].
Qed.

(** Nothing that satisfies [P] is dropped, with order and
    multiplicity: every sublist of [l] made of such elements is a
    sublist of the result. *)
Lemma filter_greatest_sublist (l k : list A) :
  k `sublist_of` l → Forall P k → k `sublist_of` filter P l.
Proof.
  induction 1 as [|x k l _ IH|x k l _ IH]; intros HP.
  - done.
  - apply Forall_cons in HP as [Hx HP].
    rewrite filter_cons_True by done. by apply sublist_skip, IH.
  - rewrite filter_cons. case_decide; [apply sublist_cons|]; by apply IH.
Qed.

Lemma filter_all (l : list A) : Forall P l → filter P l = l.
Proof.
  induction 1 as [|x l Hx _ IH]; [done|].
  by rewrite filter_cons_True, IH.
Qed.

Lemma filter_partition_length (l : list A) :
  (length (filter P l) + length (filter (λ x, ¬ P x) l) = length l)%nat.
Proof.
  induction l as [|x l IH]; [done|].
  rewrite !filter_cons. repeat case_decide; simpl; try lia; tauto.
Qed.
End list_facts.

Lemma filter_negb_completed (l : list Todo.t) :
  filter (λ todo, Is_true (negb (Todo.completed todo))) l
  = filter (λ todo, ¬ Is_true (Todo.completed todo)) l.
Proof.
  apply list_filter_iff. intros todo.
  destruct (Todo.completed todo); simpl; tauto.
Qed.

Lemma stats_sum (l : list Todo.t) :
  (Stats.active (stats l) + Stats.completed (stats l)
   = Stats.total (stats l))%nat.
Proof.
  unfold stats. simpl. rewrite filter_negb_completed.
  pose proof (filter_partition_length (λ todo, Is_true (Todo.completed todo)) l).
  lia.
Qed.

Lemma useOptimistic_settled (todos : list Todo.t) :
  useOptimistic todos [] = todos.
Proof. reflexivity. Qed.

Lemma useOptimistic_length (todos pending : list Todo.t) :
  length (useOptimistic todos pending)
  = (length pending + length todos)%nat.
Proof.
  unfold useOptimistic. revert todos.
  induction pending as [|p pending IH]; intros todos; [done|].
  simpl. rewrite IH. unfold optimisticReducer. simpl. lia.
Qed.

(** ** C2: the stats triple *)

(** C2. In every reachable state, and whatever optimistic values are in
    flight, [active + completed = total], [total] is the size of the
    overlay-inclusive collection (the size of [todos] once nothing is in
    flight), and the filter-counted [active] is [total - completed]. *)
Theorem stats_invariant (s : Hook.state) (pending : list Todo.t) :
  reachable s →
  let st := getStats s pending in
  (Stats.active st + Stats.completed st = Stats.total st)%nat
  ∧ Stats.total st = length (useOptimistic (Hook.todos s) pending)
  ∧ Stats.total (getStats s []) = length (Hook.todos s)
  ∧ Stats.active st = (Stats.total st - Stats.completed st)%nat.
Proof.
  intros _ st. pose proof (stats_sum (useOptimistic (Hook.todos s) pending)).
  subst st. unfold getStats in *. repeat split; try done. lia.
Qed.

Lemma stats_invariant_witness :
  let s := run [AddTask 10 10 (js "milk"); AddTask 11 11 (js "tea");
                ToggleTask 10] initial in
  reachable s
  ∧ getStats s [] = Stats.mk 2 1 1
  ∧ (Stats.active (getStats s []) + Stats.completed (getStats s [])
     = Stats.total (getStats s []))%nat.
Proof.
  intros s.
  assert (Hs : reachable s) by (by eexists).
  split; [exact Hs|]. split; [reflexivity|].
  exact (proj1 (stats_invariant s [] Hs)).
Defined.

(** ** C5: the visible sequence *)

Lemma filteredTodos_active (l : list Todo.t) :
  filteredTodos l active
  = filter (λ todo, Is_true (negb (Todo.completed todo))) l.
Proof. reflexivity. Qed.

Lemma filteredTodos_completed (l : list Todo.t) :
  filteredTodos l completed = filter (λ todo, Is_true (Todo.completed todo)) l.
Proof. reflexivity. Qed.

Lemma filteredTodos_all (l : list Todo.t) : filteredTodos l all = l.
Proof.
  unfold filteredTodos. apply filter_all, Forall_forall. by intros.
Qed.

Lemma filteredTodos_elem (l : list Todo.t) (f : FilterType) (todo : Todo.t) :
  todo ∈ filteredTodos l f
  ↔ todo ∈ l ∧ match f with
               | all => True
               | active => Todo.completed todo = false
               | completed => Todo.completed todo = true
               end.
Proof.
  unfold filteredTodos. rewrite list_elem_of_filter.
  destruct f, (Todo.completed todo); simpl; intuition congruence.
Qed.

Lemma filteredTodos_greatest (l k : list Todo.t) (f : FilterType) :
  k `sublist_of` l →
  Forall (λ todo, match f with
                  | all => True
                  | active => Todo.completed todo = false
                  | completed => Todo.completed todo = true
                  end) k →
  k `sublist_of` filteredTodos l f.
Proof.
  intros Hk HP. apply filter_greatest_sublist; [done|].
  eapply Forall_impl; [exact HP|]. intros todo. simpl.
  destruct f, (Todo.completed todo); simpl; intuition congruence.
Qed.

(** Filtering again with the same criterion changes nothing. *)
Lemma filteredTodos_idempotent (l : list Todo.t) (f : FilterType) :
  filteredTodos (filteredTodos l f) f = filteredTodos l f.
Proof. unfold filteredTodos. apply filter_all, Forall_filter_keeps. Qed.

(** C5. The visible sequence is a function of the collection and the
    filter alone. Under [all] it is the whole collection; under [active]
    (resp. [completed]) it holds exactly the tasks with [completed =
    false] (resp. [true]): it is a subsequence of the collection, its
    members are the members of the collection with that flag, and every
    subsequence of the collection made of such tasks is a subsequence of
    it, so nothing is dropped, duplicated or reordered. The empty
    collection gives the empty sequence under every criterion. *)
Theorem filteredTodos_spec (l : list Todo.t) (f : FilterType) :
  (∀ s pending,
     getVisibleTasks s pending
     = filteredTodos (useOptimistic (Hook.todos s) pending) (Hook.filter s))
  ∧ filteredTodos l all = l
  ∧ filteredTodos l f `sublist_of` l
  ∧ (∀ todo, todo ∈ filteredTodos l active
             ↔ todo ∈ l ∧ Todo.completed todo = false)
  ∧ (∀ todo, todo ∈ filteredTodos l completed
             ↔ todo ∈ l ∧ Todo.completed todo = true)
  ∧ (∀ k, k `sublist_of` l →
          Forall (λ todo, Todo.completed todo = false) k →
          k `sublist_of` filteredTodos l active)
  ∧ (∀ k, k `sublist_of` l →
          Forall (λ todo, Todo.completed todo = true) k →
          k `sublist_of` filteredTodos l completed)
  ∧ filteredTodos [] f = [].
Proof.
  split; [done|]. split; [apply filteredTodos_all|].
  split; [apply sublist_filter|].
  split; [intros todo; apply (filteredTodos_elem l active)|].
  split; [intros todo; apply (filteredTodos_elem l completed)|].
  split; [intros k; apply (filteredTodos_greatest l k active)|].
  split; [intros k; apply (filteredTodos_greatest l k completed)|].
  reflexivity.
Qed.

Lemma filteredTodos_spec_witness :
  let a := Todo.mk 1 (js "a") false 1 in
  let b := Todo.mk 2 (js "b") true 2 in
  let c := Todo.mk 3 (js "c") false 3 in
  [a; c] `sublist_of` [a; b; c]
  ∧ Forall (λ todo, Todo.completed todo = false) [a; c]
  ∧ [a; c] `sublist_of` filteredTodos [a; b; c] active
  ∧ filteredTodos [a; b; c] active = [a; c]
  ∧ filteredTodos [a; b; c] completed = [b].
Proof.
  intros a b c.
  assert (Hsub : [a; c] `sublist_of` [a; b; c]).
  { apply sublist_skip, sublist_cons, sublist_skip, sublist_nil. }
  assert (Hall : Forall (λ todo, Todo.completed todo = false) [a; c]).
  { repeat constructor. }
  split; [exact Hsub|]. split; [exact Hall|].
  split; [|split; reflexivity].
  destruct (filteredTodos_spec [a; b; c] active)
    as (_ & _ & _ & _ & _ & Hmax & _).
  exact (Hmax [a; c] Hsub Hall).
Defined.

(** ** C4: stats do not look at the filter *)

(** C4. [getStats] is computed from the unfiltered, overlay-inclusive
    collection: [setFilter] with any criterion leaves it unchanged. With
    two tasks, one of them completed, after [setFilter('active')] the
    visible sequence is the incomplete task alone while the stats still
    count both. *)
Theorem stats_ignore_filter (s : Hook.state) (newFilter : FilterType)
    (pending : list Todo.t) (t1 t2 : Todo.t) :
  getStats (updateFilter newFilter s) pending = getStats s pending
  ∧ getStats s pending = stats (useOptimistic (Hook.todos s) pending)
  ∧ (let finished := Todo.with_completed true t1 in
     let open := Todo.with_completed false t2 in
     let s1 := updateFilter active (Hook.mk [finished; open] (Hook.filter s)) in
     let s2 := updateFilter active (Hook.mk [open; finished] (Hook.filter s)) in
     getVisibleTasks s1 [] = [open] ∧ getStats s1 [] = Stats.mk 2 1 1
     ∧ getVisibleTasks s2 [] = [open] ∧ getStats s2 [] = Stats.mk 2 1 1).
Proof. repeat split. Qed.

(** ** C3: adding a task *)

Lemma addTodo_blank (now date : Z) (text : jsstring) (s : Hook.state) :
  trim text = [] → addTodo now date text s = s.
Proof. intros H. unfold addTodo. by rewrite decide_False by (by intros ?). Qed.

Lemma addTodo_text (now date : Z) (text : jsstring) (s : Hook.state) :
  trim text ≠ [] →
  addTodo now date text s
  = Hook.mk (Todo.mk now (trim text) false date :: Hook.todos s)
            (Hook.filter s).
Proof. intros H. unfold addTodo. by rewrite decide_True. Qed.

Lemma Live_addTodo_cells (now date : Z) (text : jsstring) (r : Live.state) :
  Live.cells (Live.addTodo now date text r)
  = addTodo now date text (Live.cells r).
Proof. unfold Live.addTodo, addTodo. by case_decide. Qed.

Lemma Live_addTodo_blank (now date : Z) (text : jsstring) (r : Live.state) :
  trim text = [] → Live.addTodo now date text r = r.
Proof.
  intros H. unfold Live.addTodo. by rewrite decide_False by (by intros ?).
Qed.

Lemma Live_addTodo_text (now date : Z) (text : jsstring) (r : Live.state) :
  trim text ≠ [] →
  Live.addTodo now date text r
  = Live.mk
      (Hook.mk (Todo.mk now (trim text) false date :: Hook.todos (Live.cells r))
               (Hook.filter (Live.cells r)))
      (Live.inFlight r ++ [Todo.mk now (trim text) false date]).
Proof. intros H. unfold Live.addTodo. by rewrite decide_True. Qed.

(** C3. [addTodo] with a text whose trim is empty changes nothing.
    Otherwise it puts one new task in front of the collection, with the
    trimmed text, [completed = false], and the clock readings taken at
    the call as [id] and [createdAt]; the rest of the collection and the
    filter are as before, and the same task is queued as an optimistic
    value. From the empty collection, adding "A" then "B" gives the
    collection B, A; but the hook rendered with the value that the
    second call queued returns B, B, A under the filter [all], with a
    total of three, and A, A after the first call. Only after React has
    dropped the queued value does the hook return B, A. *)
Theorem addTodo_shows_task_twice (now date now' date' : Z) (text : jsstring)
    (r : Live.state) :
  (trim text = [] → Live.addTodo now date text r = r)
  ∧ (trim text ≠ [] →
     Hook.todos (Live.cells (Live.addTodo now date text r))
     = Todo.mk now (trim text) false date :: Hook.todos (Live.cells r)
     ∧ Hook.filter (Live.cells (Live.addTodo now date text r))
       = Hook.filter (Live.cells r)
     ∧ Live.inFlight (Live.addTodo now date text r)
       = Live.inFlight r ++ [Todo.mk now (trim text) false date])
  ∧ (let a := Todo.mk now (js "A") false date in
     let b := Todo.mk now' (js "B") false date' in
     let r1 := Live.addTodo now date (js "A") Live.init in
     let r2 := Live.addTodo now' date' (js "B") (Live.revert r1) in
     Hook.todos (Live.cells r2) = [b; a]
     ∧ Hook.filter (Live.cells r2) = all
     ∧ Live.todos r1 = [a; a]
     ∧ Live.todos r2 = [b; b; a]
     ∧ Todo.text <$> Live.todos r2 = [js "B"; js "B"; js "A"]
     ∧ Live.stats r2 = Stats.mk 3 0 3
     ∧ Live.todos (Live.revert r2) = [b; a]).
Proof.
  split; [apply Live_addTodo_blank|]. split.
  - intros H. by rewrite Live_addTodo_text.
  - repeat split.
Qed.

Lemma addTodo_shows_task_twice_witness :
  Live.addTodo 7 8 (js "   ") Live.init = Live.init
  ∧ Hook.todos (Live.cells (Live.addTodo 7 8 (js " Buy milk ") Live.init))
    = [Todo.mk 7 (js "Buy milk") false 8]
  ∧ Live.todos (Live.addTodo 7 8 (js " Buy milk ") Live.init)
    = [Todo.mk 7 (js "Buy milk") false 8; Todo.mk 7 (js "Buy milk") false 8].
Proof.
  destruct (addTodo_shows_task_twice 7 8 0 0 (js "   ") Live.init)
    as (Hblank & _ & _).
  destruct (addTodo_shows_task_twice 7 8 0 0 (js " Buy milk ") Live.init)
    as (_ & Hadd & _).
  split; [apply Hblank; reflexivity|].
  split; [apply Hadd; vm_compute; discriminate|reflexivity].
Defined.

(** ** The callbacks of [map] in [toggleTodo] and [editTodo] *)

Section map_update.
Context (id0 : Z) (upd : Todo.t → Todo.t).
Hypothesis upd_id : ∀ todo, Todo.id (upd todo) = Todo.id todo.

Local Abbreviation f :=
  (λ todo : Todo.t, if decide (Todo.id todo = id0) then upd todo else todo).

Lemma map_update_hit (l : list Todo.t) (i : nat) (todo : Todo.t) :
  l !! i = Some todo → Todo.id todo = id0 → (f <$> l) !! i = Some (upd todo).
Proof.
  intros Hi Hid. rewrite list_lookup_fmap, Hi. simpl.
  by rewrite decide_True.
Qed.

Lemma map_update_miss (l : list Todo.t) (i : nat) (todo : Todo.t) :
  l !! i = Some todo → Todo.id todo ≠ id0 → (f <$> l) !! i = Some todo.
Proof.
  intros Hi Hid. rewrite list_lookup_fmap, Hi. simpl.
  by rewrite decide_False.
Qed.

Lemma map_update_unknown (l : list Todo.t) : id0 ∉ ids l → f <$> l = l.
Proof.
  intros Hid. rewrite <- (list_fmap_id l) at 2.
  apply list_fmap_ext. intros i todo Hi. cbv beta.
  rewrite decide_False; [done|]. intros <-. apply Hid.
  apply list_elem_of_fmap. eauto using list_elem_of_lookup_2.
Qed.

Lemma map_update_ids (l : list Todo.t) : ids (f <$> l) = ids l.
Proof.
  unfold ids. rewrite <- list_fmap_compose. apply list_fmap_ext.
  intros i todo _. simpl. case_decide; [apply upd_id|done].
Qed.
End map_update.

Lemma state_eta (s : Hook.state) : Hook.mk (Hook.todos s) (Hook.filter s) = s.
Proof. by destruct s. Qed.

(** ** C7: editing a task *)

(** C7. [editTodo] with a text whose trim is empty changes nothing.
    Otherwise every task with the given id gets the trimmed text and
    keeps its id, flag and creation time, at the same position; every
    other task, the length of the collection and the filter are
    unchanged. *)
Theorem editTodo_spec (id0 : Z) (newText : jsstring) (s : Hook.state) :
  (trim newText = [] → editTodo id0 newText s = s)
  ∧ (trim newText ≠ [] →
     Hook.filter (editTodo id0 newText s) = Hook.filter s
     ∧ length (Hook.todos (editTodo id0 newText s)) = length (Hook.todos s)
     ∧ (∀ i todo, Hook.todos s !! i = Some todo → Todo.id todo = id0 →
          Hook.todos (editTodo id0 newText s) !! i
          = Some (Todo.mk (Todo.id todo) (trim newText)
                          (Todo.completed todo) (Todo.createdAt todo)))
     ∧ (∀ i todo, Hook.todos s !! i = Some todo → Todo.id todo ≠ id0 →
          Hook.todos (editTodo id0 newText s) !! i = Some todo)).
Proof.
  unfold editTodo. split.
  - intros H. by rewrite decide_False by (by intros ?).
  - intros H. rewrite decide_True by done. simpl.
    split; [done|]. split; [apply length_fmap|]. split.
    + intros i todo. apply (map_update_hit id0 (Todo.with_text (trim newText))).
    + intros i todo. apply (map_update_miss id0 (Todo.with_text (trim newText))).
Qed.

Lemma editTodo_spec_witness :
  let a := Todo.mk 1 (js "a") false 10 in
  let b := Todo.mk 2 (js "b") true 20 in
  let s := Hook.mk [a; b] all in
  editTodo 2 (js "") s = s
  ∧ Hook.todos (editTodo 2 (js " tea ") s) !! 1%nat
    = Some (Todo.mk 2 (js "tea") true 20)
  ∧ Hook.todos (editTodo 2 (js " tea ") s) !! 0%nat = Some a.
Proof.
  intros a b s.
  destruct (editTodo_spec 2 (js "") s) as [Hblank _].
  destruct (editTodo_spec 2 (js " tea ") s) as [_ Hedit].
  split; [apply Hblank; reflexivity|].
  destruct Hedit as (_ & _ & Hhit & Hmiss); [vm_compute; discriminate|].
  split.
  - exact (Hhit 1%nat b eq_refl eq_refl).
  - apply (Hmiss 0%nat a eq_refl). vm_compute. discriminate.
Defined.

(** ** C8: deleting a task, and invalid inputs *)

Lemma filter_unknown_id (id0 : Z) (l : list Todo.t) :
  id0 ∉ ids l → filter (λ todo, Todo.id todo ≠ id0) l = l.
Proof.
  intros Hid. apply filter_all, Forall_forall. intros todo Hin <-.
  apply Hid, list_elem_of_fmap. eauto.
Qed.

Lemma filter_known_id_length (id0 : Z) (l : list Todo.t) :
  NoDup (ids l) → id0 ∈ ids l →
  (length (filter (λ todo, Todo.id todo ≠ id0) l) + 1 = length l)%nat.
Proof.
  induction l as [|todo l IH]; intros Hnd Hin.
  - by apply not_elem_of_nil in Hin.
  - unfold ids in Hnd, Hin. rewrite fmap_cons in Hnd, Hin.
    apply NoDup_cons in Hnd as [Hfresh Hnd].
    rewrite filter_cons. case_decide as Hne.
    + apply elem_of_cons in Hin as [->|Hin]; [done|].
      simpl. rewrite <- (IH Hnd Hin). lia.
    + subst id0. rewrite filter_unknown_id by done. simpl. lia.
Qed.

(** C8. [deleteTodo] keeps, in their order, exactly the tasks whose id
    differs from the given one: the result is a subsequence of the
    collection, its members are the members with another id, and no
    such task is dropped. When ids are distinct and the id is present,
    exactly one task goes. An unknown id changes nothing, for
    [deleteTodo] and [toggleTodo] alike, and a text whose trim is empty
    changes nothing for [addTodo] and [editTodo]; every operation is a
    total function of the state, so none throws or stops half way. *)
Theorem deleteTodo_spec (id0 : Z) (s : Hook.state) :
  Hook.filter (deleteTodo id0 s) = Hook.filter s
  ∧ Hook.todos (deleteTodo id0 s) `sublist_of` Hook.todos s
  ∧ (∀ todo, todo ∈ Hook.todos (deleteTodo id0 s)
             ↔ todo ∈ Hook.todos s ∧ Todo.id todo ≠ id0)
  ∧ (∀ k, k `sublist_of` Hook.todos s →
          Forall (λ todo, Todo.id todo ≠ id0) k →
          k `sublist_of` Hook.todos (deleteTodo id0 s))
  ∧ (NoDup (ids (Hook.todos s)) → id0 ∈ ids (Hook.todos s) →
     (length (Hook.todos (deleteTodo id0 s)) + 1
      = length (Hook.todos s))%nat)
  ∧ (id0 ∉ ids (Hook.todos s) → deleteTodo id0 s = s)
  ∧ (id0 ∉ ids (Hook.todos s) → toggleTodo id0 s = s)
  ∧ (∀ now date text, trim text = [] → addTodo now date text s = s)
  ∧ (∀ newText, trim newText = [] → editTodo id0 newText s = s)
  ∧ (∀ c, ∃ s', step s c = s').
Proof.
  split; [done|]. split; [apply sublist_filter|].
  split; [intros todo; simpl; rewrite list_elem_of_filter; tauto|].
  split; [intros k; apply filter_greatest_sublist|].
  split; [apply filter_known_id_length|].
  split.
  { intros Hid. unfold deleteTodo, setTodos.
    rewrite filter_unknown_id by done. apply state_eta. }
  split.
  { intros Hid. unfold toggleTodo, setTodos.
    rewrite map_update_unknown by done. apply state_eta. }
  split; [intros now date text; apply addTodo_blank|].
  split; [intros newText; apply editTodo_spec|].
  intros c. by eexists.
Qed.

Lemma deleteTodo_spec_witness :
  let a := Todo.mk 1 (js "a") false 10 in
  let b := Todo.mk 2 (js "b") true 20 in
  let c := Todo.mk 3 (js "c") false 30 in
  let s := Hook.mk [a; b; c] all in
  Hook.todos (deleteTodo 2 s) = [a; c]
  ∧ (length (Hook.todos (deleteTodo 2 s)) + 1 = length (Hook.todos s))%nat
  ∧ deleteTodo 9 s = s
  ∧ toggleTodo 9 s = s
  ∧ addTodo 4 40 (js "  ") s = s
  ∧ editTodo 2 (js "  ") s = s.
Proof.
  intros a b c s.
  destruct (deleteTodo_spec 2 s) as (_ & _ & _ & _ & Hlen & _ & _ & Hadd & Hedit & _).
  destruct (deleteTodo_spec 9 s) as (_ & _ & _ & _ & _ & Hdel & Htog & _).
  assert (Hfresh : 9 ∉ ids (Hook.todos s)) by compute_done.
  split; [reflexivity|].
  split; [apply Hlen; compute_done|].
  split; [exact (Hdel Hfresh)|]. split; [exact (Htog Hfresh)|].
  split; [apply Hadd; reflexivity|apply Hedit; reflexivity].
Defined.

(** ** C9: clearing the completed tasks *)

(** C9. [clearCompleted] is one step of the state that keeps, in their
    order, exactly the tasks with [completed = false]: the result is a
    subsequence of the collection, its members are the incomplete
    members, and no incomplete task is dropped. With two completed tasks
    and an active one, in any arrangement, the active task alone
    remains and the stats are [{total: 1, completed: 0, active: 1}]. *)
Theorem clearCompleted_spec (s : Hook.state) (t1 t2 t3 : Todo.t) :
  step s ClearCompleted = clearCompleted s
  ∧ Hook.filter (clearCompleted s) = Hook.filter s
  ∧ Hook.todos (clearCompleted s) `sublist_of` Hook.todos s
  ∧ (∀ todo, todo ∈ Hook.todos (clearCompleted s)
             ↔ todo ∈ Hook.todos s ∧ Todo.completed todo = false)
  ∧ (∀ k, k `sublist_of` Hook.todos s →
          Forall (λ todo, Todo.completed todo = false) k →
          k `sublist_of` Hook.todos (clearCompleted s))
  ∧ (let d1 := Todo.with_completed true t1 in
     let d2 := Todo.with_completed true t2 in
     let a := Todo.with_completed false t3 in
     ∀ l, l ∈ [[d1; d2; a]; [d1; a; d2]; [a; d1; d2]] →
       let s' := clearCompleted (Hook.mk l (Hook.filter s)) in
       Hook.todos s' = [a] ∧ getStats s' [] = Stats.mk 1 0 1).
Proof.
  split; [done|]. split; [done|]. split; [apply sublist_filter|].
  split.
  { intros todo. apply (filteredTodos_elem (Hook.todos s) active). }
  split.
  { intros k. apply (filteredTodos_greatest (Hook.todos s) k active). }
  intros d1 d2 a l Hl.
  repeat (apply elem_of_cons in Hl as [->|Hl]; [by split|]).
  by apply not_elem_of_nil in Hl.
Qed.

Lemma clearCompleted_spec_witness :
  let s := run [AddTask 1 1 (js "a"); AddTask 2 2 (js "b");
                AddTask 3 3 (js "c"); ToggleTask 1; ToggleTask 3] initial in
  Hook.todos s = [Todo.mk 3 (js "c") true 3; Todo.mk 2 (js "b") false 2;
                  Todo.mk 1 (js "a") true 1]
  ∧ Hook.todos (clearCompleted s) = [Todo.mk 2 (js "b") false 2]
  ∧ getStats (clearCompleted s) [] = Stats.mk 1 0 1.
Proof.
  intros s. split; [reflexivity|].
  destruct (clearCompleted_spec s (Todo.mk 3 (js "c") true 3)
              (Todo.mk 1 (js "a") true 1) (Todo.mk 2 (js "b") false 2))
    as (_ & _ & _ & _ & _ & Hscenario).
  apply (Hscenario (Hook.todos s)). compute_done.
Defined.

(** ** C10: toggling twice *)

Lemma toggle_twice (id0 : Z) (l : list Todo.t) :
  (λ todo, if decide (Todo.id todo = id0)
           then Todo.with_completed (negb (Todo.completed todo)) todo
           else todo)
  <$> ((λ todo, if decide (Todo.id todo = id0)
                then Todo.with_completed (negb (Todo.completed todo)) todo
                else todo) <$> l)
  = l.
Proof.
  rewrite <- list_fmap_compose. rewrite <- (list_fmap_id l) at 2.
  apply list_fmap_ext. intros i [i0 x c d] _. simpl.
  destruct (decide (i0 = id0)) as [Heq|Hne]; simpl.
  - rewrite decide_True by done. unfold Todo.with_completed. simpl.
    by rewrite negb_involutive.
  - by rewrite decide_False.
Qed.

(** C10. Toggling the same id twice gives back the state it started
    from, for an id present in the collection as for any other; the
    stats and every filtered view are therefore what they were. *)
Theorem toggleTodo_involutive (id0 : Z) (s : Hook.state)
    (pending : list Todo.t) (f : FilterType) :
  toggleTodo id0 (toggleTodo id0 s) = s
  ∧ getStats (toggleTodo id0 (toggleTodo id0 s)) pending = getStats s pending
  ∧ filteredTodos
      (useOptimistic (Hook.todos (toggleTodo id0 (toggleTodo id0 s))) pending) f
    = filteredTodos (useOptimistic (Hook.todos s) pending) f
  ∧ getVisibleTasks (toggleTodo id0 (toggleTodo id0 s)) pending
    = getVisibleTasks s pending.
Proof.
  assert (H : toggleTodo id0 (toggleTodo id0 s) = s).
  { unfold toggleTodo, setTodos. simpl. rewrite toggle_twice. apply state_eta. }
  by rewrite H.
Qed.

(** ** C1: identifiers *)

Lemma step_ids (s : Hook.state) (c : call) :
  ids (Hook.todos (step s c))
  `sublist_of` clock_readings [c] ++ ids (Hook.todos s).
Proof.
  destruct c as [now date text|id0|id0 newText|id0| |newFilter]; simpl.
  - unfold addTodo. by destruct (decide (trim text ≠ [])).
  - by rewrite (map_update_ids id0).
  - unfold editTodo. case_decide; simpl; [|done].
    by rewrite (map_update_ids id0).
  - apply (fmap_sublist Todo.id), sublist_filter.
  - apply (fmap_sublist Todo.id), sublist_filter.
  - done.
Qed.

Lemma clock_readings_cons (c : call) (cs : list call) :
  clock_readings (c :: cs) = clock_readings [c] ++ clock_readings cs.
Proof. destruct c; simpl; try done. by case_decide. Qed.

Lemma clock_readings_single (c : call) :
  reverse (clock_readings [c]) = clock_readings [c].
Proof. destruct c; simpl; try done. by case_decide. Qed.

Lemma run_ids_NoDup (cs : list call) (s : Hook.state) :
  NoDup (reverse (clock_readings cs) ++ ids (Hook.todos s)) →
  NoDup (ids (Hook.todos (run cs s))).
Proof.
  revert s. induction cs as [|c cs IH]; intros s Hnd; [done|].
  change (run (c :: cs) s) with (run cs (step s c)). apply IH.
  rewrite clock_readings_cons, reverse_app, clock_readings_single in Hnd.
  rewrite <- (assoc_L (++)) in Hnd.
  eapply sublist_NoDup; [exact Hnd|].
  apply sublist_app; [done|]. apply step_ids.
Qed.

(** Identifiers are distinct as long as the clock never gives the same
    reading to two additions. *)
Lemma ids_NoDup_of_distinct_readings (cs : list call) :
  NoDup (clock_readings cs) → NoDup (ids (Hook.todos (run cs initial))).
Proof.
  intros Hnd. apply run_ids_NoDup. simpl. rewrite app_nil_r.
  by rewrite reverse_Permutation.
Qed.

(** C1. The id of a new task is the reading of [Date.now()]. Two
    additions that get the same reading (two calls within one
    millisecond, or a clock set back) give two tasks with the same id in
    a reachable state: identifiers are not distinct there, and toggling
    or deleting by that id acts on both tasks. *)
Theorem addTodo_same_reading_same_id :
  let s := run [AddTask 1000 1000 (js "A"); AddTask 1000 1000 (js "B")]
               initial in
  reachable s
  ∧ Hook.todos s = [Todo.mk 1000 (js "B") false 1000;
                    Todo.mk 1000 (js "A") false 1000]
  ∧ ids (Hook.todos s) = [1000; 1000]
  ∧ ¬ NoDup (ids (Hook.todos s))
  ∧ Todo.completed <$> Hook.todos (toggleTodo 1000 s) = [true; true]
  ∧ Hook.todos (deleteTodo 1000 s) = [].
Proof.
  intros s. split; [by eexists|]. split; [reflexivity|].
  split; [reflexivity|]. split; [|split; reflexivity].
  intros Hnd. change (NoDup [1000; 1000]) in Hnd.
  apply NoDup_cons in Hnd as [Hfresh _]. apply Hfresh. by left.
Qed.

(** ** C6: toggling a task *)

Section toggle_refs.
Context (id0 : Z).

Local Abbreviation flip :=
  (λ todo : Todo.t, Todo.with_completed (negb (Todo.completed todo)) todo).
Local Abbreviation cb :=
  (λ todo : Todo.t, if decide (Todo.id todo = id0) then flip todo else todo).

Lemma alloc_fresh (σ : store) (todo : Todo.t) : σ !! (alloc σ todo).1 = None.
Proof. apply not_elem_of_dom, is_fresh. Qed.

Lemma alloc_subseteq (σ : store) (todo : Todo.t) : σ ⊆ (alloc σ todo).2.
Proof. apply insert_subseteq, (alloc_fresh σ todo). Qed.

Lemma alloc_lookup (σ : store) (todo : Todo.t) :
  (alloc σ todo).2 !! (alloc σ todo).1 = Some todo.
Proof. apply lookup_insert_eq. Qed.

(** No object is changed in place. *)
Lemma toggleTodo_refs_subseteq (prev : list loc) (σ : store) :
  σ ⊆ (toggleTodo_refs id0 σ prev).2.
Proof.
  revert σ. induction prev as [|r prev IH]; intros σ; simpl; [done|].
  destruct (σ !! r) as [todo|]; [case_decide|]; simpl; try apply IH.
  etrans; [|apply IH]. apply alloc_subseteq.
Qed.

Lemma toggleTodo_refs_length (prev : list loc) (σ : store) :
  length (toggleTodo_refs id0 σ prev).1 = length prev.
Proof.
  revert σ. induction prev as [|r prev IH]; intros σ; simpl; [done|].
  destruct (σ !! r) as [todo|]; [case_decide|]; simpl; by rewrite IH.
Qed.

(** The objects read through the new array are the results of the
    callback on the objects read through the old one. *)
Lemma toggleTodo_refs_view (prev : list loc) (σ : store) :
  Forall (λ r, is_Some (σ !! r)) prev →
  (λ r, (toggleTodo_refs id0 σ prev).2 !! r) <$> (toggleTodo_refs id0 σ prev).1
  = (λ r, cb <$> σ !! r) <$> prev.
Proof.
  revert σ. induction prev as [|r prev IH]; intros σ Hwf; simpl; [done|].
  apply Forall_cons in Hwf as [[todo Hr] Hwf]. rewrite Hr. simpl.
  case_decide as Hid; simpl.
  - set (a := alloc σ (Todo.with_completed (negb (Todo.completed todo)) todo)).
    f_equal.
    + eapply lookup_weaken; [apply alloc_lookup|].
      apply toggleTodo_refs_subseteq.
    + rewrite IH.
      * apply list_fmap_ext. intros i r' Hi.
        eapply Forall_lookup_1 in Hwf as [todo' Hr']; [|exact Hi].
        rewrite Hr'. f_equal.
        eapply lookup_weaken; [exact Hr'|apply alloc_subseteq].
      * eapply Forall_impl; [exact Hwf|]. intros r' [todo' Hr'].
        exists todo'. eapply lookup_weaken; [exact Hr'|apply alloc_subseteq].
  - f_equal; [|by apply IH].
    eapply lookup_weaken; [exact Hr|apply toggleTodo_refs_subseteq].
Qed.

(** The callback returns its argument for a task with another id: the
    new array holds the same reference at that position. *)
Lemma toggleTodo_refs_stable (prev : list loc) (σ : store) (i : nat)
    (r : loc) (todo : Todo.t) :
  prev !! i = Some r → σ !! r = Some todo → Todo.id todo ≠ id0 →
  (toggleTodo_refs id0 σ prev).1 !! i = Some r.
Proof.
  revert σ i. induction prev as [|r0 prev IH]; intros σ i Hi Hr Hid; [done|].
  destruct i as [|i]; simpl in *.
  - injection Hi as ->. rewrite Hr. by rewrite decide_False.
  - destruct (σ !! r0) as [todo0|]; [case_decide|]; simpl; try by apply IH.
    apply IH; [done| |done].
    eapply lookup_weaken; [exact Hr|apply alloc_subseteq].
Qed.

(** For a task with the given id the new array holds a reference that
    was not in use, to the task with its flag negated. *)
Lemma toggleTodo_refs_flipped (prev : list loc) (σ : store) (i : nat)
    (r : loc) (todo : Todo.t) :
  prev !! i = Some r → σ !! r = Some todo → Todo.id todo = id0 →
  ∃ r', (toggleTodo_refs id0 σ prev).1 !! i = Some r'
        ∧ σ !! r' = None
        ∧ (toggleTodo_refs id0 σ prev).2 !! r' = Some (flip todo).
Proof.
  revert σ i. induction prev as [|r0 prev IH]; intros σ i Hi Hr Hid; [done|].
  destruct i as [|i]; simpl in *.
  - injection Hi as ->. rewrite Hr. rewrite decide_True by done. simpl.
    eexists. split; [done|]. split; [apply (alloc_fresh σ todo)|].
    eapply lookup_weaken; [apply alloc_lookup|apply toggleTodo_refs_subseteq].
  - destruct (σ !! r0) as [todo0|] eqn:Hr0; [case_decide|]; simpl;
      try by apply IH.
    destruct (IH (alloc σ (Todo.with_completed (negb (Todo.completed todo0))
                             todo0)).2 i Hi) as (r' & Hr' & Hnew & Hval);
      [eapply lookup_weaken; [exact Hr|apply alloc_subseteq]|done|].
    exists r'. split; [done|]. split; [|done].
    eapply lookup_weaken_None; [exact Hnew|apply alloc_subseteq].
Qed.

Lemma represents_wf (σ : store) (refs : list loc) (l : list Todo.t) :
  represents σ refs l → Forall (λ r, is_Some (σ !! r)) refs.
Proof.
  unfold represents. intros Hrep. apply Forall_lookup. intros i r Hi.
  apply (f_equal (λ k, k !! i)) in Hrep.
  rewrite !list_lookup_fmap, Hi in Hrep. simpl in Hrep.
  destruct (l !! i) as [todo|]; [|done]. simpl in Hrep.
  injection Hrep as Hrep. by exists todo.
Qed.

Lemma toggleTodo_refs_represents (σ : store) (prev : list loc)
    (l : list Todo.t) :
  represents σ prev l →
  represents (toggleTodo_refs id0 σ prev).2 (toggleTodo_refs id0 σ prev).1
             (cb <$> l).
Proof.
  intros Hrep. unfold represents.
  rewrite toggleTodo_refs_view by (by eapply represents_wf).
  unfold represents in Hrep. apply list_eq. intros i.
  apply (f_equal (λ k, k !! i)) in Hrep.
  rewrite !list_lookup_fmap in Hrep. rewrite !list_lookup_fmap.
  destruct (prev !! i), (l !! i); simpl in *; try done.
  injection Hrep as ->. done.
Qed.
End toggle_refs.

(** C6. [toggleTodo] negates the flag of every task with the given id
    and keeps its id, text and creation time, at the same position;
    every other task, the length of the collection and the filter are
    unchanged, and an id no task has leaves the whole state as it was.
    On references: when an array of references represents the
    collection, the array after the call represents the new collection,
    no object that existed is changed, a task with another id is the
    very same object (same reference, same content), and a toggled task
    is a new object at a reference that was not in use. *)
Theorem toggleTodo_spec (id0 : Z) (s : Hook.state) (σ : store)
    (prev : list loc) :
  Hook.filter (toggleTodo id0 s) = Hook.filter s
  ∧ length (Hook.todos (toggleTodo id0 s)) = length (Hook.todos s)
  ∧ (∀ i todo, Hook.todos s !! i = Some todo → Todo.id todo = id0 →
       Hook.todos (toggleTodo id0 s) !! i
       = Some (Todo.mk (Todo.id todo) (Todo.text todo)
                       (negb (Todo.completed todo)) (Todo.createdAt todo)))
  ∧ (∀ i todo, Hook.todos s !! i = Some todo → Todo.id todo ≠ id0 →
       Hook.todos (toggleTodo id0 s) !! i = Some todo)
  ∧ (id0 ∉ ids (Hook.todos s) → toggleTodo id0 s = s)
  ∧ (represents σ prev (Hook.todos s) →
     let next := (toggleTodo_refs id0 σ prev).1 in
     let σ' := (toggleTodo_refs id0 σ prev).2 in
     represents σ' next (Hook.todos (toggleTodo id0 s))
     ∧ σ ⊆ σ'
     ∧ (∀ i r todo, prev !! i = Some r → σ !! r = Some todo →
          Todo.id todo ≠ id0 →
          next !! i = Some r ∧ σ' !! r = Some todo)
     ∧ (∀ i r todo, prev !! i = Some r → σ !! r = Some todo →
          Todo.id todo = id0 →
          ∃ r', next !! i = Some r' ∧ σ !! r' = None
                ∧ σ' !! r'
                  = Some (Todo.mk (Todo.id todo) (Todo.text todo)
                            (negb (Todo.completed todo))
                            (Todo.createdAt todo)))).
Proof.
  split; [done|]. split; [apply length_fmap|].
  split.
  { intros i todo. apply (map_update_hit id0
      (λ todo, Todo.with_completed (negb (Todo.completed todo)) todo)). }
  split.
  { intros i todo. apply (map_update_miss id0
      (λ todo, Todo.with_completed (negb (Todo.completed todo)) todo)). }
  split.
  { intros Hid. unfold toggleTodo, setTodos.
    rewrite map_update_unknown by done. apply state_eta. }
  intros Hrep next σ'.
  split; [by apply toggleTodo_refs_represents|].
  split; [apply toggleTodo_refs_subseteq|].
  split.
  - intros i r todo Hi Hr Hid. split.
    + by eapply toggleTodo_refs_stable.
    + eapply lookup_weaken; [exact Hr|apply toggleTodo_refs_subseteq].
  - intros i r todo. apply toggleTodo_refs_flipped.
Qed.

Lemma toggleTodo_spec_witness :
  let a := Todo.mk 1 (js "a") false 10 in
  let b := Todo.mk 2 (js "b") false 20 in
  let s := Hook.mk [a; b] all in
  let σ : store := <[5%positive := a]> (<[6%positive := b]> ∅) in
  let prev := [5%positive; 6%positive] in
  represents σ prev (Hook.todos s)
  ∧ Hook.todos (toggleTodo 2 s) = [a; Todo.mk 2 (js "b") true 20]
  ∧ Hook.todos (toggleTodo 2 s) !! 1%nat = Some (Todo.mk 2 (js "b") true 20)
  ∧ Hook.todos (toggleTodo 2 s) !! 0%nat = Some a
  ∧ toggleTodo 9 s = s
  ∧ (toggleTodo_refs 2 σ prev).1 !! 0%nat = Some 5%positive
  ∧ (toggleTodo_refs 2 σ prev).2 !! 5%positive = Some a
  ∧ represents (toggleTodo_refs 2 σ prev).2 (toggleTodo_refs 2 σ prev).1
               (Hook.todos (toggleTodo 2 s)).
Proof.
  intros a b s σ prev.
  assert (Hrep : represents σ prev (Hook.todos s)) by reflexivity.
  destruct (toggleTodo_spec 2 s σ prev) as (_ & _ & Hhit & Hmiss & _ & Href).
  destruct (toggleTodo_spec 9 s σ prev) as (_ & _ & _ & _ & Hunknown & _).
  destruct (Href Hrep) as (Hrep' & _ & Hstable & _).
  assert (Hne : Todo.id a ≠ 2) by (simpl; lia).
  destruct (Hstable 0%nat 5%positive a eq_refl eq_refl Hne) as [Hsame Hval].
  split; [exact Hrep|]. split; [reflexivity|].
  split; [exact (Hhit 1%nat b eq_refl eq_refl)|].
  split; [exact (Hmiss 0%nat a eq_refl Hne)|].
  split; [apply Hunknown; compute_done|].
  split; [exact Hsame|]. split; [exact Hval|exact Hrep'].
Defined.

(** * Further properties of the hook *)

(** ** [trim] *)

Lemma trimStart_head (s : jsstring) (c : N) (r : jsstring) :
  trimStart s = c :: r → isWhiteSpace c = false.
Proof.
  induction s as [|a s IH]; simpl; [done|].
  destruct (isWhiteSpace a) eqn:Ha; [done|]. by intros [= <- _].
Qed.

Lemma trimStart_fixed (s : jsstring) :
  (∀ c, head s = Some c → isWhiteSpace c = false) → trimStart s = s.
Proof.
  destruct s as [|a s]; simpl; [done|]. intros H. by rewrite (H a eq_refl).
Qed.

Lemma trimStart_suffix (s : jsstring) : trimStart s `suffix_of` s.
Proof.
  induction s as [|a s IH]; simpl; [done|].
  destruct (isWhiteSpace a); [by apply suffix_cons_r|done].
Qed.

Lemma suffix_last {A} (u t : list A) :
  u `suffix_of` t → u ≠ [] → last u = last t.
Proof.
  intros [p ->] Hu. rewrite last_app.
  destruct (last u) eqn:E; [done|]. by apply last_None in E.
Qed.

Lemma trim_head (s : jsstring) (c : N) :
  head (trim s) = Some c → isWhiteSpace c = false.
Proof.
  unfold trim, trimEnd. rewrite head_reverse. intros Hc.
  assert (Hne : trimStart (reverse (trimStart s)) ≠ []).
  { intros E. by rewrite E in Hc. }
  rewrite (suffix_last _ _ (trimStart_suffix _) Hne), last_reverse in Hc.
  apply head_Some in Hc as [r Hr]. by eapply trimStart_head.
Qed.

Lemma trim_last (s : jsstring) (c : N) :
  last (trim s) = Some c → isWhiteSpace c = false.
Proof.
  unfold trim, trimEnd. rewrite last_reverse. intros Hc.
  apply head_Some in Hc as [r Hr]. by eapply trimStart_head.
Qed.

Lemma trim_fixed (s : jsstring) :
  (∀ c, head s = Some c → isWhiteSpace c = false) →
  (∀ c, last s = Some c → isWhiteSpace c = false) →
  trim s = s.
Proof.
  intros Hh Hl. unfold trim, trimEnd. rewrite (trimStart_fixed s Hh).
  rewrite trimStart_fixed; [apply reverse_involutive|].
  intros c. rewrite head_reverse. apply Hl.
Qed.

Lemma trim_idempotent (s : jsstring) : trim (trim s) = trim s.
Proof. apply trim_fixed; [apply trim_head|apply trim_last]. Qed.

(** ** X1: the texts that are stored *)

Lemma step_text_trimmed (s : Hook.state) (c : call) :
  Forall (λ todo, ∃ x, trim x ≠ [] ∧ Todo.text todo = trim x) (Hook.todos s) →
  Forall (λ todo, ∃ x, trim x ≠ [] ∧ Todo.text todo = trim x)
         (Hook.todos (step s c)).
Proof.
  intros Hs.
  destruct c as [now date text|id0|id0 newText|id0| |newFilter]; simpl.
  - unfold addTodo. case_decide; simpl; [|done].
    apply Forall_cons. split; [|done]. by exists text.
  - apply Forall_fmap. eapply Forall_impl; [exact Hs|].
    intros todo Htodo. simpl. by case_decide.
  - unfold editTodo. case_decide; simpl; [|done].
    apply Forall_fmap. eapply Forall_impl; [exact Hs|].
    intros todo Htodo. simpl. case_decide; [|done]. by exists newText.
  - eapply Forall_forall. intros todo Hin.
    apply list_elem_of_filter in Hin as [_ Hin].
    by eapply Forall_forall in Hs.
  - eapply Forall_forall. intros todo Hin.
    apply list_elem_of_filter in Hin as [_ Hin].
    by eapply Forall_forall in Hs.
  - done.
Qed.

Lemma run_text_trimmed (cs : list call) (s : Hook.state) :
  Forall (λ todo, ∃ x, trim x ≠ [] ∧ Todo.text todo = trim x) (Hook.todos s) →
  Forall (λ todo, ∃ x, trim x ≠ [] ∧ Todo.text todo = trim x)
         (Hook.todos (run cs s)).
Proof.
  revert s. induction cs as [|c cs IH]; intros s Hs; [done|].
  simpl. by apply IH, step_text_trimmed.
Qed.

(** X1. In every reachable state the text of every task is a trimmed,
    non-empty string: it is not empty, it neither starts nor ends with
    a whitespace code unit, and trimming it again changes nothing. *)
Theorem reachable_text_trimmed (s : Hook.state) :
  reachable s →
  Forall (λ todo,
            Todo.text todo ≠ []
            ∧ (∀ c, head (Todo.text todo) = Some c → isWhiteSpace c = false)
            ∧ (∀ c, last (Todo.text todo) = Some c → isWhiteSpace c = false)
            ∧ trim (Todo.text todo) = Todo.text todo)
         (Hook.todos s).
Proof.
  intros [cs ->].
  eapply Forall_impl; [apply run_text_trimmed; by constructor|].
  intros todo (x & Hx & ->). simpl.
  split; [done|]. split; [apply trim_head|]. split; [apply trim_last|].
  apply trim_idempotent.
Qed.

Lemma reachable_text_trimmed_witness :
  let s := run [AddTask 1 1 (js "  milk "); EditTask 1 (js " oat milk  ");
                EditTask 1 (js "   ")] initial in
  reachable s
  ∧ Todo.text <$> Hook.todos s = [js "oat milk"]
  ∧ Forall (λ todo, trim (Todo.text todo) = Todo.text todo) (Hook.todos s).
Proof.
  intros s. assert (Hs : reachable s) by (by eexists).
  split; [exact Hs|]. split; [reflexivity|].
  eapply Forall_impl; [exact (reachable_text_trimmed s Hs)|].
  intros todo (_ & _ & _ & H). exact H.
Defined.

(** ** X2: identifiers and the clock *)

Lemma run_ids_sublist (cs : list call) (s : Hook.state) :
  ids (Hook.todos (run cs s))
  `sublist_of` reverse (clock_readings cs) ++ ids (Hook.todos s).
Proof.
  revert s. induction cs as [|c cs IH]; intros s; [done|].
  change (run (c :: cs) s) with (run cs (step s c)). etrans; [apply IH|].
  rewrite (clock_readings_cons c cs), reverse_app, clock_readings_single.
  rewrite <- (assoc_L (++)).
  apply sublist_app; [done|]. apply step_ids.
Qed.

(** X2. The ids of the collection are readings of [Date.now()] that
    the additions of the run took, latest addition first; a call with a
    blank text takes no reading. They are pairwise distinct whenever the
    readings taken are. *)
Theorem ids_from_clock (cs : list call) :
  ids (Hook.todos (run cs initial)) `sublist_of` reverse (clock_readings cs)
  ∧ (NoDup (clock_readings cs) → NoDup (ids (Hook.todos (run cs initial)))).
Proof.
  split; [|apply ids_NoDup_of_distinct_readings].
  pose proof (run_ids_sublist cs initial) as H. simpl in H.
  by rewrite app_nil_r in H.
Qed.

Lemma ids_from_clock_witness :
  let cs := [AddTask 5 5 (js "  "); AddTask 5 5 (js "a"); ToggleTask 5;
             AddTask 6 6 (js "b"); AddTask 7 7 (js "c"); DeleteTask 6] in
  clock_readings cs = [5; 6; 7]
  ∧ NoDup (clock_readings cs)
  ∧ ids (Hook.todos (run cs initial)) = [7; 5]
  ∧ NoDup (ids (Hook.todos (run cs initial))).
Proof.
  intros cs. assert (Hnd : NoDup (clock_readings cs)) by compute_done.
  split; [reflexivity|]. split; [exact Hnd|]. split; [reflexivity|].
  exact (proj2 (ids_from_clock cs) Hnd).
Defined.

(** ** X3: where a task comes from *)

Lemma step_provenance (s : Hook.state) (c : call) (todo : Todo.t) :
  todo ∈ Hook.todos (step s c) →
  (∃ todo0, todo0 ∈ Hook.todos s ∧ Todo.id todo0 = Todo.id todo
            ∧ Todo.createdAt todo0 = Todo.createdAt todo)
  ∨ (∃ text, c = AddTask (Todo.id todo) (Todo.createdAt todo) text
             ∧ trim text ≠ []).
Proof.
  destruct c as [now date text|id0|id0 newText|id0| |newFilter]; simpl.
  - unfold addTodo. case_decide; simpl; [|by left; exists todo].
    intros [->|Hin]%elem_of_cons; [right; by exists text|by left; exists todo].
  - intros (todo0 & -> & Hin)%list_elem_of_fmap. left. exists todo0.
    split; [done|]. by case_decide.
  - unfold editTodo. case_decide; simpl; [|by left; exists todo].
    intros (todo0 & -> & Hin)%list_elem_of_fmap. left. exists todo0.
    split; [done|]. by case_decide.
  - intros [_ Hin]%list_elem_of_filter. by left; exists todo.
  - intros [_ Hin]%list_elem_of_filter. by left; exists todo.
  - intros Hin. by left; exists todo.
Qed.

Lemma run_provenance (cs : list call) (s : Hook.state) (todo : Todo.t) :
  todo ∈ Hook.todos (run cs s) →
  (∃ todo0, todo0 ∈ Hook.todos s ∧ Todo.id todo0 = Todo.id todo
            ∧ Todo.createdAt todo0 = Todo.createdAt todo)
  ∨ (∃ text, AddTask (Todo.id todo) (Todo.createdAt todo) text ∈ cs
             ∧ trim text ≠ []).
Proof.
  revert s. induction cs as [|c cs IH]; intros s Hin.
  - left. by exists todo.
  - simpl in Hin. apply IH in Hin as [(todo1 & Hin1 & Hid & Hdate)|Hadd].
    + apply step_provenance in Hin1 as [(todo0 & Hin0 & Hid0 & Hdate0)|Hadd].
      * left. exists todo0. split; [done|]. split; congruence.
      * right. destruct Hadd as (text & -> & Htext).
        exists text. rewrite Hid, Hdate. split; [by left|done].
    + right. destruct Hadd as (text & Hin & Htext).
      exists text. split; [by right|done].
Qed.

(** X3. Every task of a run was made by one of its [addTodo] calls, with
    a text that is not blank, and still carries the [Date.now()]
    reading of that call as its [id] and the [new Date()] reading as its
    [createdAt]: no operation rewrites either field or makes a task of
    its own. *)
Theorem task_provenance (cs : list call) (todo : Todo.t) :
  todo ∈ Hook.todos (run cs initial) →
  ∃ text, AddTask (Todo.id todo) (Todo.createdAt todo) text ∈ cs
          ∧ trim text ≠ [].
Proof.
  intros Hin. apply run_provenance in Hin as [(todo0 & Hin0 & _)|Hadd].
  - by apply not_elem_of_nil in Hin0.
  - done.
Qed.

Lemma task_provenance_witness :
  let cs := [AddTask 10 20 (js "a"); EditTask 10 (js "b"); ToggleTask 10] in
  let todo := Todo.mk 10 (js "b") true 20 in
  todo ∈ Hook.todos (run cs initial)
  ∧ ∃ text, AddTask 10 20 text ∈ cs ∧ trim text ≠ [].
Proof.
  intros cs todo.
  assert (Hin : todo ∈ Hook.todos (run cs initial)) by (by left).
  split; [exact Hin|]. exact (task_provenance cs todo Hin).
Defined.

(** ** X4, X5: deleting *)

(** X4. After [deleteTodo] no task has the given id, and deleting the
    same id again changes nothing. *)
Theorem deleteTodo_absent (id0 : Z) (s : Hook.state) :
  (id0 ∉ ids (Hook.todos (deleteTodo id0 s)))
  ∧ deleteTodo id0 (deleteTodo id0 s) = deleteTodo id0 s.
Proof.
  assert (Habs : id0 ∉ ids (Hook.todos (deleteTodo id0 s))).
  { intros (todo & Hid & Hin)%list_elem_of_fmap. simpl in Hin.
    by apply list_elem_of_filter in Hin as [Hne _]. }
  split; [done|].
  unfold deleteTodo at 1. unfold setTodos.
  rewrite filter_unknown_id by done. apply state_eta.
Qed.

(** X5. Deleting a task right after adding it, by the id it was given,
    gives back the state before the addition, provided no other task
    had that id. *)
Theorem addTodo_deleteTodo (now date : Z) (text : jsstring) (s : Hook.state) :
  now ∉ ids (Hook.todos s) →
  deleteTodo now (addTodo now date text s) = s.
Proof.
  intros Hfresh. unfold addTodo. case_decide.
  - unfold deleteTodo, setTodos. simpl.
    rewrite filter_cons_False by (simpl; tauto).
    rewrite filter_unknown_id by done. apply state_eta.
  - unfold deleteTodo, setTodos.
    rewrite filter_unknown_id by done. apply state_eta.
Qed.

Lemma addTodo_deleteTodo_witness :
  let s := run [AddTask 10 10 (js "a"); AddTask 11 11 (js "b")] initial in
  (12 ∉ ids (Hook.todos s))
  ∧ deleteTodo 12 (addTodo 12 12 (js "c") s) = s.
Proof.
  intros s. assert (Hfresh : 12 ∉ ids (Hook.todos s)) by compute_done.
  split; [exact Hfresh|]. exact (addTodo_deleteTodo 12 12 (js "c") s Hfresh).
Defined.

(** ** X6: the stats after [clearCompleted] *)

Lemma filter_none {A} (P : A → Prop) `{!∀ x, Decision (P x)} (l : list A) :
  Forall (λ x, ¬ P x) l → filter P l = [].
Proof.
  induction 1 as [|x l Hx _ IH]; [done|]. by rewrite filter_cons_False.
Qed.

Lemma filter_active_idem (l : list Todo.t) :
  filter (λ todo, Is_true (negb (Todo.completed todo)))
         (filter (λ todo, Is_true (negb (Todo.completed todo))) l)
  = filter (λ todo, Is_true (negb (Todo.completed todo))) l.
Proof. apply filter_all, Forall_filter_keeps. Qed.

Lemma filter_completed_of_active (l : list Todo.t) :
  filter (λ todo, Is_true (Todo.completed todo))
         (filter (λ todo, Is_true (negb (Todo.completed todo))) l)
  = [].
Proof.
  apply filter_none. eapply Forall_impl; [apply Forall_filter_keeps|].
  intros todo. simpl. destruct (Todo.completed todo); simpl; tauto.
Qed.

(** X6. Once nothing optimistic is in flight, the stats after
    [clearCompleted] are: no completed task, and as many tasks in total
    as were active before. The [active] view is what it was, the
    [completed] view is empty, and clearing again changes nothing. *)
Theorem clearCompleted_stats (s : Hook.state) :
  getStats (clearCompleted s) []
  = Stats.mk (Stats.active (getStats s [])) 0 (Stats.active (getStats s []))
  ∧ filteredTodos (Hook.todos (clearCompleted s)) active
    = filteredTodos (Hook.todos s) active
  ∧ filteredTodos (Hook.todos (clearCompleted s)) completed = []
  ∧ clearCompleted (clearCompleted s) = clearCompleted s.
Proof.
  unfold getStats, stats, clearCompleted, setTodos. simpl.
  rewrite !filteredTodos_active, !filteredTodos_completed.
  rewrite !filter_active_idem, !filter_completed_of_active. done.
Qed.

(** ** X7, X8: how the mutations compose *)

Lemma filter_fmap_stable {A} (P : A → Prop) `{!∀ x, Decision (P x)}
    (g : A → A) (l : list A) :
  (∀ x, P (g x) ↔ P x) → filter P (g <$> l) = g <$> filter P l.
Proof.
  intros Hg. induction l as [|x l IH]; [done|].
  rewrite fmap_cons, !filter_cons.
  destruct (decide (P x)) as [Hx|Hx].
  - rewrite decide_True by (by apply Hg). by rewrite fmap_cons, IH.
  - rewrite decide_False by (by rewrite Hg). done.
Qed.

Lemma fmap_fmap_comm {A} (g h : A → A) (l : list A) :
  (∀ x, g (h x) = h (g x)) → g <$> (h <$> l) = h <$> (g <$> l).
Proof.
  intros Hgh. rewrite <- !list_fmap_compose. apply list_fmap_ext.
  intros i x _. apply Hgh.
Qed.

Lemma filter_filter_comm {A} (P Q : A → Prop)
    `{!∀ x, Decision (P x), !∀ x, Decision (Q x)} (l : list A) :
  filter P (filter Q l) = filter Q (filter P l).
Proof. rewrite !list_filter_filter. apply list_filter_iff. tauto. Qed.

(** X7. [toggleTodo], [editTodo] and [deleteTodo] commute with one
    another, whatever the ids (equal or not), and [clearCompleted]
    commutes with [deleteTodo] and [editTodo]: the order in which two
    such calls reach the hook does not matter. *)
Theorem mutations_commute (i j : Z) (x : jsstring) (s : Hook.state) :
  toggleTodo i (toggleTodo j s) = toggleTodo j (toggleTodo i s)
  ∧ deleteTodo i (deleteTodo j s) = deleteTodo j (deleteTodo i s)
  ∧ toggleTodo i (deleteTodo j s) = deleteTodo j (toggleTodo i s)
  ∧ toggleTodo i (editTodo j x s) = editTodo j x (toggleTodo i s)
  ∧ deleteTodo i (editTodo j x s) = editTodo j x (deleteTodo i s)
  ∧ clearCompleted (deleteTodo i s) = deleteTodo i (clearCompleted s)
  ∧ clearCompleted (editTodo j x s) = editTodo j x (clearCompleted s).
Proof.
  unfold toggleTodo, deleteTodo, editTodo, clearCompleted, setTodos.
  repeat split; try case_decide; simpl; try done; f_equal.
  - apply fmap_fmap_comm. intros todo. simpl. by repeat case_decide.
  - apply filter_filter_comm.
  - symmetry. apply filter_fmap_stable. intros todo. by case_decide.
  - apply fmap_fmap_comm. intros todo. simpl. by repeat case_decide.
  - apply filter_fmap_stable. intros todo. by case_decide.
  - apply filter_filter_comm.
  - apply filter_fmap_stable. intros todo. by case_decide.
Qed.

(** X8. Two edits of different ids commute; of two edits of the same id
    the later one wins when its text is not blank, and is ignored when
    it is; the same edit twice is the edit once. *)
Theorem editTodo_compose (i j : Z) (x y : jsstring) (s : Hook.state) :
  (i ≠ j → editTodo i x (editTodo j y s) = editTodo j y (editTodo i x s))
  ∧ (trim x ≠ [] → editTodo i x (editTodo i y s) = editTodo i x s)
  ∧ (trim x = [] → editTodo i x (editTodo i y s) = editTodo i y s)
  ∧ editTodo i x (editTodo i x s) = editTodo i x s.
Proof.
  assert (Hlast : ∀ z, trim x ≠ [] →
            editTodo i x (editTodo i z s) = editTodo i x s).
  { intros z Hx. unfold editTodo.
    destruct (decide (trim x ≠ [])) as [_|]; [|done].
    case_decide; [|done]. unfold setTodos. simpl. f_equal.
    rewrite <- list_fmap_compose. apply list_fmap_ext.
    intros k todo _. simpl.
    destruct (decide (Todo.id todo = i)) as [Hi|Hi]; simpl.
    - by rewrite decide_True.
    - by rewrite decide_False. }
  split; [|split; [apply Hlast|split]].
  - intros Hij. unfold editTodo, setTodos.
    repeat case_decide; simpl; try done. f_equal.
    apply fmap_fmap_comm. intros todo. simpl.
    repeat case_decide; simpl in *; congruence.
  - intros Hx. unfold editTodo at 1. by rewrite decide_False by (by intros ?).
  - destruct (decide (trim x ≠ [])) as [Hx|Hx]; [by apply Hlast|].
    unfold editTodo. by rewrite !decide_False.
Qed.

Lemma editTodo_compose_witness :
  let s := run [AddTask 1 1 (js "a"); AddTask 2 2 (js "b")] initial in
  editTodo 1 (js "x") (editTodo 2 (js "y") s)
  = editTodo 2 (js "y") (editTodo 1 (js "x") s)
  ∧ Todo.text <$> Hook.todos (editTodo 1 (js "x") (editTodo 1 (js "y") s))
    = [js "b"; js "x"]
  ∧ Todo.text <$> Hook.todos (editTodo 1 (js " ") (editTodo 1 (js "y") s))
    = [js "b"; js "y"].
Proof.
  intros s.
  destruct (editTodo_compose 1 2 (js "x") (js "y") s) as (Hcomm & _).
  destruct (editTodo_compose 1 1 (js "x") (js "y") s) as (_ & Hlast & _).
  destruct (editTodo_compose 1 1 (js " ") (js "y") s) as (_ & _ & Hblank & _).
  split; [apply Hcomm; lia|]. split.
  - rewrite Hlast by (vm_compute; discriminate). reflexivity.
  - rewrite Hblank by reflexivity. reflexivity.
Defined.

(** ** X9: what a toggle does to the stats *)

Lemma toggle_counts (id0 : Z) (l : list Todo.t) (todo : Todo.t) :
  NoDup (ids l) → todo ∈ l → Todo.id todo = id0 →
  (length (filter (λ t, Is_true (Todo.completed t))
     ((λ t, if decide (Todo.id t = id0)
            then Todo.with_completed (negb (Todo.completed t)) t
            else t) <$> l))
   + (if Todo.completed todo then 1 else 0)
   = length (filter (λ t, Is_true (Todo.completed t)) l)
     + (if Todo.completed todo then 0 else 1))%nat.
Proof.
  induction l as [|t l IH]; intros Hnd Hin Hid.
  - by apply not_elem_of_nil in Hin.
  - unfold ids in Hnd. rewrite fmap_cons in Hnd.
    apply NoDup_cons in Hnd as [Hfresh Hnd]. rewrite fmap_cons.
    destruct (decide (Todo.id t = id0)) as [Ht|Ht].
    + assert (todo = t) as ->.
      { apply elem_of_cons in Hin as [->|Hin]; [done|]. exfalso.
        apply Hfresh. rewrite Ht, <- Hid. apply list_elem_of_fmap. eauto. }
      rewrite (map_update_unknown id0) by (by rewrite <- Ht).
      rewrite !filter_cons. unfold Todo.with_completed. simpl.
      destruct (Todo.completed t); simpl; lia.
    + assert (Hin' : todo ∈ l).
      { apply elem_of_cons in Hin as [->|Hin]; [done|done]. }
      specialize (IH Hnd Hin' Hid). rewrite !filter_cons.
      destruct (Todo.completed t); simpl; lia.
Qed.

(** X9. When ids are distinct and nothing optimistic is in flight,
    toggling the id of a task of the collection moves exactly one task
    between the two counts: an active task makes [completed] one more
    and [active] one less, a completed task the other way round; the
    total does not move. *)
Theorem toggleTodo_stats (id0 : Z) (s : Hook.state) (todo : Todo.t) :
  NoDup (ids (Hook.todos s)) → todo ∈ Hook.todos s → Todo.id todo = id0 →
  let before := getStats s [] in
  let after := getStats (toggleTodo id0 s) [] in
  Stats.total after = Stats.total before
  ∧ (Stats.completed after + (if Todo.completed todo then 1 else 0)
     = Stats.completed before + (if Todo.completed todo then 0 else 1))%nat
  ∧ (Stats.active after + (if Todo.completed todo then 0 else 1)
     = Stats.active before + (if Todo.completed todo then 1 else 0))%nat.
Proof.
  intros Hnd Hin Hid before after.
  pose proof (toggle_counts id0 (Hook.todos s) todo Hnd Hin Hid) as Hc.
  pose proof (stats_sum (Hook.todos s)) as Hb.
  pose proof (stats_sum (Hook.todos (toggleTodo id0 s))) as Ha.
  assert (Ht : Stats.total after = Stats.total before).
  { subst before after. unfold getStats, stats. simpl. apply length_fmap. }
  subst before after. unfold getStats in *. simpl in *.
  split; [exact Ht|]. split; [exact Hc|].
  rewrite length_fmap in Ha. destruct (Todo.completed todo); lia.
Qed.

Lemma toggleTodo_stats_witness :
  let s := run [AddTask 1 1 (js "a"); AddTask 2 2 (js "b"); ToggleTask 1]
               initial in
  getStats s [] = Stats.mk 2 1 1
  ∧ getStats (toggleTodo 2 s) [] = Stats.mk 2 2 0
  ∧ (Stats.completed (getStats (toggleTodo 2 s) []) + 0
     = Stats.completed (getStats s []) + 1)%nat.
Proof.
  intros s. split; [reflexivity|]. split; [reflexivity|].
  assert (Hnd : NoDup (ids (Hook.todos s))) by compute_done.
  assert (Hin : Todo.mk 2 (js "b") false 2 ∈ Hook.todos s) by (by left).
  exact (proj1 (proj2 (toggleTodo_stats 2 s _ Hnd Hin eq_refl))).
Defined.

(** ** X10: the optimistic overlay *)

(** X10. The overlay-inclusive collection is the optimistic values,
    newest first, in front of [todos]; each view of it is the view of
    the optimistic values, newest first, in front of the view of
    [todos]. *)
Theorem useOptimistic_newest_first (todos pending : list Todo.t)
    (f : FilterType) :
  useOptimistic todos pending = reverse pending ++ todos
  ∧ filteredTodos (useOptimistic todos pending) f
    = reverse (filteredTodos pending f) ++ filteredTodos todos f.
Proof.
  assert (H : useOptimistic todos pending = reverse pending ++ todos).
  { unfold useOptimistic. revert todos.
    induction pending as [|p pending IH]; intros todos; [done|].
    simpl. rewrite IH, reverse_cons, <- (assoc_L (++)). done. }
  split; [done|]. rewrite H. unfold filteredTodos.
  by rewrite filter_app, filter_reverse.
Qed.

(** ** X11: the two views split the collection *)

(** X11. The [active] and the [completed] view together hold every task
    of the collection exactly once, and no task is in both. *)
Theorem filteredTodos_partition (l : list Todo.t) :
  filteredTodos l active ++ filteredTodos l completed ≡ₚ l
  ∧ (∀ todo, ¬ (todo ∈ filteredTodos l active
                ∧ todo ∈ filteredTodos l completed))
  ∧ (length (filteredTodos l active) + length (filteredTodos l completed)
     = length l)%nat.
Proof.
  assert (Hp : filteredTodos l active ++ filteredTodos l completed ≡ₚ l).
  { rewrite filteredTodos_active, filteredTodos_completed.
    rewrite filter_negb_completed, (comm (++)).
    apply filter_app_complement. }
  split; [done|]. split.
  - intros todo [Ha Hc].
    apply filteredTodos_elem in Ha as [_ Ha].
    apply filteredTodos_elem in Hc as [_ Hc]. congruence.
  - by rewrite <- length_app, Hp.
Qed.

(** * Properties of the components *)

(** ** X12: the counts on the filter buttons *)

(** X12. The count shown on a filter button is the number of tasks the
    list shows once that filter is selected, optimistic values
    included; the count of [all] is the sum of the other two. *)
Theorem filters_count_is_view_length (s : Hook.state)
    (pending : list Todo.t) (b : TodoFilters.button) :
  b ∈ TodoFilters.filters (getStats s pending) →
  TodoFilters.count b
  = length (getVisibleTasks (updateFilter (TodoFilters.key b) s) pending)
  ∧ (Stats.total (getStats s pending)
     = Stats.active (getStats s pending)
       + Stats.completed (getStats s pending))%nat.
Proof.
  intros Hb. split.
  - unfold TodoFilters.filters in Hb.
    repeat (apply elem_of_cons in Hb as [->|Hb]); simpl.
    + unfold getVisibleTasks. simpl. by rewrite filteredTodos_all.
    + done.
    + done.
    + by apply not_elem_of_nil in Hb.
  - symmetry. apply stats_sum.
Qed.

Lemma filters_count_is_view_length_witness :
  let s := run [AddTask 1 1 (js "a"); AddTask 2 2 (js "b"); ToggleTask 1]
               initial in
  let b := TodoFilters.mk completed (js "Completed") 1 in
  b ∈ TodoFilters.filters (getStats s [])
  ∧ getVisibleTasks (updateFilter completed s) [] = [Todo.mk 1 (js "a") true 1]
  ∧ TodoFilters.count b
    = length (getVisibleTasks (updateFilter completed s) []).
Proof.
  intros s b.
  assert (Hb : b ∈ TodoFilters.filters (getStats s [])).
  { right. right. left. }
  split; [exact Hb|]. split; [reflexivity|].
  exact (proj1 (filters_count_is_view_length s [] b Hb)).
Defined.

(** ** X13: when the Clear button is shown *)

Lemma filter_length_zero {A} (P : A → Prop) `{!∀ x, Decision (P x)}
    (l : list A) :
  length (filter P l) = 0%nat ↔ Forall (λ x, ¬ P x) l.
Proof.
  induction l as [|x l IH]; [by split|].
  rewrite filter_cons, Forall_cons. case_decide; simpl.
  - split; [lia|tauto].
  - rewrite IH. tauto.
Qed.

Lemma filter_same_iff {A} (P : A → Prop) `{!∀ x, Decision (P x)}
    (l : list A) :
  filter P l = l ↔ Forall P l.
Proof.
  split; [|apply filter_all]. intros <-. apply Forall_filter_keeps.
Qed.

Lemma clearCompleted_same_iff (s : Hook.state) :
  clearCompleted s = s
  ↔ Forall (λ todo, Todo.completed todo = false) (Hook.todos s).
Proof.
  unfold clearCompleted, setTodos. split.
  - intros Hs. apply (f_equal Hook.todos) in Hs. simpl in Hs.
    apply filter_same_iff in Hs. eapply Forall_impl; [exact Hs|].
    intros todo. simpl. by destruct (Todo.completed todo).
  - intros Hs. rewrite filter_all; [apply state_eta|].
    eapply Forall_impl; [exact Hs|]. intros todo ->. done.
Qed.

(** X13. Once nothing optimistic is in flight, the Clear button is
    shown exactly when [clearCompleted] would change the state. *)
Theorem showsClear_iff_clearCompleted_acts (s : Hook.state) :
  TodoFilters.showsClear (getStats s []) = true ↔ clearCompleted s ≠ s.
Proof.
  unfold TodoFilters.showsClear. rewrite bool_decide_eq_true.
  rewrite clearCompleted_same_iff. unfold getStats, stats. simpl.
  pose proof (filter_length_zero
                (λ todo, Is_true (Todo.completed todo)) (Hook.todos s)) as Hz.
  assert (Hiff : Forall (λ todo, ¬ Is_true (Todo.completed todo)) (Hook.todos s)
                 ↔ Forall (λ todo, Todo.completed todo = false) (Hook.todos s)).
  { split; intros H; (eapply Forall_impl; [exact H|]); intros todo; simpl;
      destruct (Todo.completed todo); simpl; intuition congruence. }
  rewrite <- Hiff, <- Hz. lia.
Qed.

Lemma showsClear_iff_clearCompleted_acts_witness :
  let s := run [AddTask 1 1 (js "a"); ToggleTask 1] initial in
  TodoFilters.showsClear (getStats s []) = true ∧ clearCompleted s ≠ s.
Proof.
  intros s. split; [reflexivity|].
  apply (proj1 (showsClear_iff_clearCompleted_acts s)). reflexivity.
Defined.

(** ** X14, X15: editing an item *)

(** X14. With [editTodo] as [onEdit]: [handleSave] always leaves the
    edit mode. When the text typed is blank the hook is not called and
    the edit buffer goes back to the text of the task; otherwise the
    hook is called and takes the edit, so every task with the id of the
    item gets the trimmed text, while the buffer keeps what was typed.
    Enter in the input is [handleSave]. *)
Theorem handleSave_spec (todo : Todo.t) (st : TodoItem.state)
    (s : Hook.state) :
  let r := TodoItem.handleSave editTodo todo st s in
  TodoItem.isEditing r.1 = false
  ∧ (trim (TodoItem.editText st) = [] →
     r.2 = s ∧ TodoItem.editText r.1 = Todo.text todo)
  ∧ (trim (TodoItem.editText st) ≠ [] →
     TodoItem.editText r.1 = TodoItem.editText st
     ∧ (∀ i t, Hook.todos s !! i = Some t → Todo.id t = Todo.id todo →
          Hook.todos r.2 !! i
          = Some (Todo.with_text (trim (TodoItem.editText st)) t))
     ∧ (∀ i t, Hook.todos s !! i = Some t → Todo.id t ≠ Todo.id todo →
          Hook.todos r.2 !! i = Some t))
  ∧ TodoItem.handleKeyDown editTodo todo (js "Enter") st s = r.
Proof.
  intros r. subst r. unfold TodoItem.handleSave.
  split; [by case_decide|]. split; [|split; [|done]].
  - intros Hblank. by rewrite decide_False by (by intros ?).
  - intros Htext. rewrite decide_True by done. simpl.
    unfold editTodo. rewrite decide_True by done. simpl.
    split; [done|]. split.
    + intros i t. apply (map_update_hit (Todo.id todo)
        (Todo.with_text (trim (TodoItem.editText st)))).
    + intros i t. apply (map_update_miss (Todo.id todo)
        (Todo.with_text (trim (TodoItem.editText st)))).
Qed.

Lemma handleSave_spec_witness :
  let todo := Todo.mk 1 (js "a") false 1 in
  let s := Hook.mk [todo] all in
  let typed := TodoItem.mk true (js " tea ") in
  let blank := TodoItem.mk true (js "  ") in
  TodoItem.handleSave editTodo todo blank s = (TodoItem.mount todo, s)
  ∧ Hook.todos (TodoItem.handleSave editTodo todo typed s).2 !! 0%nat
    = Some (Todo.mk 1 (js "tea") false 1).
Proof.
  intros todo s typed blank.
  destruct (handleSave_spec todo blank s) as (_ & Hblank & _).
  destruct (handleSave_spec todo typed s) as (_ & _ & Htyped & _).
  split.
  - destruct Hblank as [H2 H1]; [reflexivity|]. reflexivity.
  - destruct Htyped as (_ & Hhit & _); [vm_compute; discriminate|].
    exact (Hhit 0%nat todo eq_refl eq_refl).
Defined.

Lemma NoDup_ids_inj (l : list Todo.t) (t t' : Todo.t) :
  NoDup (ids l) → t ∈ l → t' ∈ l → Todo.id t = Todo.id t' → t = t'.
Proof.
  intros Hnd [i Hi]%list_elem_of_lookup [j Hj]%list_elem_of_lookup Hid.
  assert (i = j) as ->.
  { apply (NoDup_lookup (ids l) i j (Todo.id t) Hnd); unfold ids;
      rewrite list_lookup_fmap; [by rewrite Hi|by rewrite Hj, Hid]. }
  congruence.
Qed.

Lemma editTodo_same_text (s : Hook.state) (todo : Todo.t) (x : jsstring) :
  NoDup (ids (Hook.todos s)) → todo ∈ Hook.todos s →
  trim x = Todo.text todo → editTodo (Todo.id todo) x s = s.
Proof.
  intros Hnd Hin Hx. unfold editTodo. case_decide; [|done].
  unfold setTodos.
  transitivity (Hook.mk (Hook.todos s) (Hook.filter s)); [|apply state_eta].
  f_equal. transitivity (id <$> Hook.todos s); [|apply list_fmap_id].
  apply list_fmap_ext. intros i t Hi. simpl. case_decide as Hid; [|done].
  assert (t = todo) as ->.
  { eapply NoDup_ids_inj; eauto using list_elem_of_lookup_2. }
  rewrite Hx. by destruct todo.
Qed.

Lemma editTodo_twice (i : Z) (x : jsstring) (s : Hook.state) :
  editTodo i x (editTodo i x s) = editTodo i x s.
Proof.
  unfold editTodo. destruct (decide (trim x ≠ [])) as [Hx|Hx]; [|done].
  unfold setTodos. simpl. f_equal.
  rewrite <- list_fmap_compose. apply list_fmap_ext.
  intros k todo _. simpl.
  destruct (decide (Todo.id todo = i)) as [Hi|Hi]; simpl.
  - by rewrite decide_True.
  - by rewrite decide_False.
Qed.

(** X15. In a reachable state with distinct ids, take an item whose
    edit buffer trims to the text of its task. That is so when the item
    mounts, and again after a save: the buffer then keeps what was
    typed, blanks around it included, while the task has the trimmed
    text. Opening the editor of such an item and pressing Enter without
    typing leaves the hook state unchanged and only closes the editor;
    the buffer is left as it is, so after saving " tea " it still reads
    " tea " and not the stored "tea". *)
Theorem save_untouched_is_noop (s : Hook.state) (todo : Todo.t)
    (st : TodoItem.state) (x : jsstring) :
  reachable s → NoDup (ids (Hook.todos s)) → todo ∈ Hook.todos s →
  (trim (TodoItem.editText st) = Todo.text todo →
   TodoItem.handleKeyDown editTodo todo (js "Enter")
     (TodoItem.setIsEditing true st) s
   = (TodoItem.setIsEditing false st, s))
  ∧ trim (TodoItem.editText (TodoItem.mount todo)) = Todo.text todo
  ∧ (trim x ≠ [] →
     let saved := TodoItem.handleSave editTodo todo (TodoItem.mk true x) s in
     let todo' := Todo.with_text (trim x) todo in
     saved.1 = TodoItem.mk false x
     ∧ todo' ∈ Hook.todos saved.2
     ∧ trim (TodoItem.editText saved.1) = Todo.text todo'
     ∧ TodoItem.handleKeyDown editTodo todo' (js "Enter")
         (TodoItem.setIsEditing true saved.1) saved.2
       = (saved.1, saved.2)).
Proof.
  intros [cs ->] Hnd Hin.
  pose proof (run_text_trimmed cs initial (Forall_nil_2 _)) as Htexts.
  eapply Forall_forall in Htexts as (y & Hy & Htext); [|exact Hin].
  assert (Htrim : trim (Todo.text todo) = Todo.text todo).
  { rewrite Htext. apply trim_idempotent. }
  split; [|split; [exact Htrim|]].
  - intros Hbuf. unfold TodoItem.handleKeyDown. rewrite decide_True by done.
    unfold TodoItem.handleSave. simpl. rewrite Hbuf.
    rewrite decide_True by (by rewrite Htext).
    by rewrite editTodo_same_text.
  - intros Hx saved todo'. subst saved todo'.
    unfold TodoItem.handleKeyDown. rewrite decide_True by done.
    unfold TodoItem.handleSave. simpl. rewrite !decide_True by done. simpl.
    split; [done|]. split; [|split; [done|]].
    + apply list_elem_of_lookup in Hin as [i Hi].
      apply (list_elem_of_lookup_2 _ i). unfold editTodo.
      rewrite decide_True by done. simpl.
      by apply (map_update_hit (Todo.id todo) (Todo.with_text (trim x))).
    + by rewrite editTodo_twice.
Qed.

Lemma save_untouched_is_noop_witness :
  let s := run [AddTask 1 1 (js " a "); AddTask 2 2 (js "b")] initial in
  let todo := Todo.mk 1 (js "a") false 1 in
  let saved := TodoItem.handleSave editTodo todo
                 (TodoItem.mk true (js " tea ")) s in
  reachable s ∧ NoDup (ids (Hook.todos s)) ∧ todo ∈ Hook.todos s
  ∧ TodoItem.handleKeyDown editTodo todo (js "Enter")
      (TodoItem.setIsEditing true (TodoItem.mount todo)) s
    = (TodoItem.mount todo, s)
  ∧ saved.1 = TodoItem.mk false (js " tea ")
  ∧ Todo.text <$> Hook.todos saved.2 = [js "b"; js "tea"]
  ∧ TodoItem.handleKeyDown editTodo (Todo.mk 1 (js "tea") false 1)
      (js "Enter") (TodoItem.setIsEditing true saved.1) saved.2
    = (TodoItem.mk false (js " tea "), saved.2).
Proof.
  intros s todo saved.
  assert (Hs : reachable s) by (by eexists).
  assert (Hnd : NoDup (ids (Hook.todos s))) by compute_done.
  assert (Hin : todo ∈ Hook.todos s) by (right; left).
  destruct (save_untouched_is_noop s todo (TodoItem.mount todo) (js " tea ")
              Hs Hnd Hin) as (Hnoop & _ & Hsaved).
  split; [exact Hs|]. split; [exact Hnd|]. split; [exact Hin|].
  split; [exact (Hnoop eq_refl)|].
  destruct Hsaved as (H1 & _ & _ & H4); [vm_compute; discriminate|].
  split; [exact H1|]. split; [reflexivity|]. exact H4.
Defined.

(** ** X16: submitting the form *)

(** X16. With [addTodo] as [onAddTodo]: a blank input is kept and the
    hook is not called; any other input is cleared and the hook takes
    it, so the collection gets one new task with the trimmed text.
    Submitting again right away adds nothing, the Add button is shown
    exactly when a submit would add a task, and Enter submits. *)
Theorem handleSubmit_spec (now date now' date' : Z) (inputValue : jsstring)
    (s : Hook.state) :
  let r := TodoForm.handleSubmit (addTodo now date) inputValue s in
  (trim inputValue = [] → r = (inputValue, s))
  ∧ (trim inputValue ≠ [] →
     r.1 = []
     ∧ Hook.todos r.2
       = Todo.mk now (trim inputValue) false date :: Hook.todos s)
  ∧ TodoForm.handleSubmit (addTodo now' date') r.1 r.2 = r
  ∧ (TodoForm.showsAddButton inputValue = true
     ↔ length (Hook.todos r.2) = S (length (Hook.todos s)))
  ∧ TodoForm.handleKeyDown (addTodo now date) (js "Enter") inputValue s = r.
Proof.
  intros r. subst r. unfold TodoForm.handleSubmit, TodoForm.showsAddButton.
  rewrite bool_decide_eq_true.
  destruct (decide (trim inputValue ≠ [])) as [Htext|Hblank].
  - rewrite (addTodo_text now date inputValue s Htext). simpl.
    split; [done|]. split; [done|]. split; [done|]. split; [done|].
    unfold TodoForm.handleKeyDown, TodoForm.handleSubmit.
    rewrite !decide_True by done. by rewrite addTodo_text.
  - simpl. split; [done|]. split; [done|]. split.
    { by rewrite decide_False. }
    split; [split; [done|lia]|].
    unfold TodoForm.handleKeyDown, TodoForm.handleSubmit.
    rewrite decide_True by done. by rewrite decide_False.
Qed.

Lemma handleSubmit_spec_witness :
  TodoForm.handleSubmit (addTodo 1 2) (js "  ") initial = (js "  ", initial)
  ∧ TodoForm.handleSubmit (addTodo 1 2) (js " a ") initial
    = ([], Hook.mk [Todo.mk 1 (js "a") false 2] all).
Proof.
  destruct (handleSubmit_spec 1 2 3 4 (js "  ") initial) as (Hblank & _).
  destruct (handleSubmit_spec 1 2 3 4 (js " a ") initial) as (_ & Hadd & _).
  split; [apply Hblank; reflexivity|].
  destruct Hadd as [H1 H2]; [vm_compute; discriminate|]. reflexivity.
Defined.

(** ** X17: the empty state of the list *)

(** X17. The list shows its empty state ("No tasks yet") exactly when
    no task of the overlay-inclusive collection passes the filter. So
    when the collection is not empty and all its tasks are completed,
    selecting [active] shows the empty state while the stats panel, the
    filters and the Clear button are displayed. *)
Theorem emptyState_spec (s : Hook.state) (pending : list Todo.t) :
  (TodoList.emptyState (getVisibleTasks s pending) = true
   ↔ filteredTodos (useOptimistic (Hook.todos s) pending) (Hook.filter s)
     = [])
  ∧ (App.showsStats (getStats s pending) = true
     ↔ useOptimistic (Hook.todos s) pending ≠ [])
  ∧ (Hook.todos s ≠ [] →
     Forall (λ todo, Todo.completed todo = true) (Hook.todos s) →
     TodoList.emptyState (getVisibleTasks (updateFilter active s) []) = true
     ∧ App.showsStats (getStats (updateFilter active s) []) = true
     ∧ TodoFilters.showsClear (getStats (updateFilter active s) []) = true).
Proof.
  unfold TodoList.emptyState, App.showsStats, TodoFilters.showsClear.
  rewrite !bool_decide_eq_true. unfold getVisibleTasks, getStats. simpl.
  split; [apply length_zero_iff_nil|]. split.
  - destruct (useOptimistic (Hook.todos s) pending); simpl; split;
      [lia|done|done|lia].
  - intros Hne Hall. rewrite filteredTodos_active.
    rewrite filter_none, filter_all.
    + destruct (Hook.todos s); [done|]. simpl. split; [done|]. lia.
    + eapply Forall_impl; [exact Hall|]. by intros todo ->.
    + eapply Forall_impl; [exact Hall|]. intros todo ->. simpl. tauto.
Qed.

Lemma emptyState_spec_witness :
  let s := run [AddTask 1 1 (js "a"); ToggleTask 1] initial in
  Hook.todos s = [Todo.mk 1 (js "a") true 1]
  ∧ TodoList.emptyState (getVisibleTasks (updateFilter active s) []) = true
  ∧ App.showsStats (getStats (updateFilter active s) []) = true.
Proof.
  intros s. split; [reflexivity|].
  destruct (emptyState_spec s []) as (_ & _ & H).
  destruct H as (H1 & H2 & _); [done|by repeat constructor|].
  split; [exact H1|exact H2].
Defined.

(** ** X18: the motivational line of the stats panel *)

Lemma Forall_not_completed (l : list Todo.t) :
  Forall (λ todo, ¬ Is_true (Todo.completed todo)) l
  ↔ Forall (λ todo, Todo.completed todo = false) l.
Proof.
  split; intros H; (eapply Forall_impl; [exact H|]); intros todo; simpl;
    destruct (Todo.completed todo); simpl; intuition congruence.
Qed.

Lemma Forall_not_active (l : list Todo.t) :
  Forall (λ todo, ¬ Is_true (negb (Todo.completed todo))) l
  ↔ Forall (λ todo, Todo.completed todo = true) l.
Proof.
  split; intros H; (eapply Forall_impl; [exact H|]); intros todo; simpl;
    destruct (Todo.completed todo); simpl; intuition congruence.
Qed.

(** X18. On the stats of a collection, the panel says "All tasks
    completed" exactly when the collection is not empty and every task
    is completed, and says nothing exactly when no task is completed.
    Otherwise it gives the number of completed tasks, which is then
    positive and smaller than the total, with "task" in the singular
    exactly when that number is one. *)
Theorem motivation_spec (l : list Todo.t) (n : nat) (p : jsstring) :
  (TodoStats.motivation (stats l) = Some TodoStats.AllCompleted
   ↔ l ≠ [] ∧ Forall (λ todo, Todo.completed todo = true) l)
  ∧ (TodoStats.motivation (stats l) = None
     ↔ Forall (λ todo, Todo.completed todo = false) l)
  ∧ (TodoStats.motivation (stats l) = Some (TodoStats.SomeDone n p) →
     n = length (filteredTodos l completed)
     ∧ (0 < n < length l)%nat
     ∧ (p = js "" ↔ n = 1%nat)
     ∧ (p = js "s" ↔ n ≠ 1%nat)).
Proof.
  pose proof (stats_sum l) as Hsum. unfold stats in Hsum. simpl in Hsum.
  pose proof (filter_length_zero
                (λ todo, Is_true (Todo.completed todo)) l) as Hc0.
  pose proof (filter_length_zero
                (λ todo, Is_true (negb (Todo.completed todo))) l) as Ha0.
  assert (Hnil : l ≠ [] ↔ length l ≠ 0%nat).
  { by rewrite length_zero_iff_nil. }
  rewrite <- Forall_not_completed, <- Forall_not_active, <- Hc0, <- Ha0, Hnil.
  rewrite filteredTodos_completed.
  unfold TodoStats.motivation, stats. simpl.
  destruct (decide (length l = 0%nat)) as [Hl|Hl].
  { split; [split; [done|lia]|]. split; [split; [lia|done]|done]. }
  destruct (decide (0 < length (filter (λ todo, Is_true (Todo.completed todo)) l))%nat)
    as [Hpos|Hpos].
  - destruct (decide (length (filter (λ todo, Is_true (Todo.completed todo)) l)
                      = length l)) as [Hall|Hsome].
    + split; [split; [lia|done]|]. split; [split; [done|lia]|done].
    + split; [split; [done|lia]|]. split; [split; [done|lia]|].
      intros [= <- <-]. split; [done|]. split; [lia|].
      case_decide; split; split; try done; try lia; try discriminate.
  - split; [split; [done|lia]|]. split; [split; [lia|done]|done].
Qed.

Lemma motivation_spec_witness :
  let a := Todo.mk 1 (js "a") true 1 in
  let b := Todo.mk 2 (js "b") false 2 in
  TodoStats.motivation (stats [a]) = Some TodoStats.AllCompleted
  ∧ TodoStats.motivation (stats [b]) = None
  ∧ TodoStats.motivation (stats [a; b]) = Some (TodoStats.SomeDone 1 (js ""))
  ∧ (1 = length (filteredTodos [a; b] completed))%nat.
Proof.
  intros a b.
  destruct (motivation_spec [a] 0 []) as (Hall & _).
  destruct (motivation_spec [b] 0 []) as (_ & Hnone & _).
  destruct (motivation_spec [a; b] 1 (js "")) as (_ & _ & Hsome).
  split; [apply Hall; split; [done|by repeat constructor]|].
  split; [apply Hnone; by repeat constructor|].
  split; [reflexivity|]. exact (proj1 (Hsome eq_refl)).
Defined.

(** * The visible list after a mutation *)

(** ** X19: where a new task shows up *)

(** X19. Once nothing optimistic is in flight, a task just added is the
    first item of the visible list under the filters [all] and
    [active]; under [completed] it is not shown and the visible list is
    what it was. *)
Theorem addTodo_visible (now date : Z) (text : jsstring) (s : Hook.state) :
  trim text ≠ [] →
  getVisibleTasks (addTodo now date text s) []
  = if decide (Hook.filter s = completed) then getVisibleTasks s []
    else Todo.mk now (trim text) false date :: getVisibleTasks s [].
Proof.
  intros Htext. rewrite addTodo_text by done.
  unfold getVisibleTasks, filteredTodos. simpl.
  rewrite filter_cons. simpl. by destruct (Hook.filter s).
Qed.

Lemma addTodo_visible_witness :
  let s := updateFilter completed
             (run [AddTask 1 1 (js "a"); ToggleTask 1] initial) in
  getVisibleTasks s [] = [Todo.mk 1 (js "a") true 1]
  ∧ getVisibleTasks (addTodo 2 2 (js "b") s) [] = getVisibleTasks s [].
Proof.
  intros s. split; [reflexivity|].
  rewrite (addTodo_visible 2 2 (js "b") s) by (vm_compute; discriminate).
  reflexivity.
Defined.

(** ** X20: a toggled task leaves the filtered view *)




(** ** X21: deleting and clearing act on the view directly *)

(** X21. Once nothing optimistic is in flight, the visible list after
    [deleteTodo] is the visible list before without the tasks of that
    id, and the visible list after [clearCompleted] is the visible list
    before without its completed tasks, under every filter. *)
Theorem view_after_removal (id0 : Z) (s : Hook.state) :
  getVisibleTasks (deleteTodo id0 s) []
  = filter (λ t, Todo.id t ≠ id0) (getVisibleTasks s [])
  ∧ getVisibleTasks (clearCompleted s) []
    = filter (λ t, Is_true (negb (Todo.completed t))) (getVisibleTasks s []).
Proof.
  unfold getVisibleTasks, filteredTodos. simpl.
  split; apply filter_filter_comm.
Qed.
